(** * rcct-visualization: the ThoughtNode model and the forest-to-graph flattener

    A shallow embedding of [src/models/ThoughtNode.ts] and of the flattening
    pass of [src/components/ThoughtTree.tsx] (the first [useEffect], with its
    local closure [processNode]), and the properties of the specification
    that concern them.

    ThoughtNode objects are JavaScript heap objects: they are referred to by
    reference, an [aliasNode] may point back at an ancestor, and two
    different objects may carry the same [id].  The embedding therefore keeps
    an explicit object store: a reference is an index into a list of object
    records. *)

From stdpp Require Import base option list strings gmap.
From Stdlib Require Import ZArith Lia.

Open Scope Z_scope.

(** ** src/models/ThoughtNode.ts *)

Inductive ThoughtNodeType :=
  | QUESTION | HYPOTHESIS | EVALUATION | CONCLUSION
  | META_REFLECTION | RECURSIVE_REFERENCE.

Inductive EvaluationStatus :=
  | PENDING | IN_PROGRESS | COMPLETE | ERROR | MEMOIZED.

(** A reference to a ThoughtNode object. *)
Abbreviation ref := nat.

(** The [any]-typed payloads are never inspected; they are kept as opaque
    serialised values. *)
Definition any := string.

Record IsomorphicRepresentations := {
  computational : option any;
  cognitive : option any;
  representational : option any;
}.

(** [createdAt] is a [Date], kept as its time value; [recursionDepth] is a
    JavaScript number holding an integer. *)
Record Metadata := {
  createdAt : Z;
  evaluationStatus : EvaluationStatus;
  recursionDepth : Z;
  memoizationKey : option string;
}.

Module ThoughtNode.
Record t := mk {
  id : string;
  content : string;
  type : ThoughtNodeType;
  subThoughts : list ref;
  aliasNode : option ref;
  isomorphicRepresentations : IsomorphicRepresentations;
  metadata : Metadata;
}.
End ThoughtNode.

(** The object store: [h !! r] is the object behind reference [r]. *)
Abbreviation Heap := (list ThoughtNode.t).

(** [new ThoughtNode(props)] allocates a fresh object at the end of the store. *)
Definition alloc (h : Heap) (n : ThoughtNode.t) : ref * Heap :=
  (length h, h ++ [n]).

Definition defaultMetadata (now : Z) : Metadata :=
  {| createdAt := now; evaluationStatus := PENDING;
     recursionDepth := 0; memoizationKey := None |}.

(** The constructor: absent [subThoughts], [isomorphicRepresentations] and
    [metadata] take their defaults ([now] is what [new Date()] would give). *)
Definition constructor (now : Z) (id content : string) (type : ThoughtNodeType)
    (subThoughts : option (list ref)) (aliasNode : option ref)
    (iso : option IsomorphicRepresentations) (metadata : option Metadata)
    : ThoughtNode.t :=
  {| ThoughtNode.id := id;
     ThoughtNode.content := content;
     ThoughtNode.type := type;
     ThoughtNode.subThoughts := default [] subThoughts;
     ThoughtNode.aliasNode := aliasNode;
     ThoughtNode.isomorphicRepresentations :=
       default {| computational := None; cognitive := None;
                  representational := None |} iso;
     ThoughtNode.metadata := default (defaultMetadata now) metadata |}.

(** JavaScript numbers are IEEE 754 doubles.  The model keeps the doubles
    that hold an integer as [Z]; an arithmetic operation of the source on
    them gives the exact result rounded to a significand of 53 bits, ties to
    even.  [roundToDouble x] is that rounding of the exact integer [x]: up to
    [2^53] in magnitude every integer is a double; beyond, the doubles with
    [53 + e] bits are the multiples of [2^e]. *)
Definition roundToDouble (x : Z) : Z :=
  let m := Z.abs x in
  if m <=? 2 ^ 53 then x
  else
    let e := Z.log2 m - 52 in
    let q := Z.shiftr m e in
    let r := m - Z.shiftl q e in
    let half := Z.shiftl 1 (e - 1) in
    let q' :=
      if r <? half then q
      else if half <? r then q + 1
      else if Z.even q then q else q + 1 in
    Z.sgn x * Z.shiftl q' e.

(** A result that may leave the finite doubles: a rounded magnitude of
    [2^1024] or more is an infinity. *)
Inductive Number :=
  | Finite (z : Z)
  | PlusInfinity
  | MinusInfinity.

Definition toNumber (x : Z) : Number :=
  let y := roundToDouble x in
  if 2 ^ 1024 <=? y then PlusInfinity
  else if y <=? - 2 ^ 1024 then MinusInfinity
  else Finite y.

(** [a * b] on two doubles that hold integers, and [a + b] for such a
    double [a] and a result [b]. *)
Definition numberMul (a b : Z) : Number := toNumber (a * b).

Definition numberAdd (a : Z) (b : Number) : Number :=
  match b with
  | Finite z => toNumber (a + z)
  | PlusInfinity => PlusInfinity
  | MinusInfinity => MinusInfinity
  end.

(** [this.createSelfReference()]: the object spread copies the metadata of
    [this] into a new object and overrides [recursionDepth] with
    [this.metadata.recursionDepth + 1], a sum of doubles (adding 1 to a
    finite double never gives an infinity); the new node is constructed,
    then its [aliasNode] field is assigned.  The result is the reference of
    the new node and the store after the call; [None] stands for a call on a
    reference that is no object. *)
Definition createSelfReference (now : Z) (h : Heap) (this : ref)
    : option (ref * Heap) :=
  n ← h !! this;
  let m := ThoughtNode.metadata n in
  let selfRef :=
    constructor now
      (ThoughtNode.id n +:+ "-self-ref")
      ("Reference to " +:+ ThoughtNode.content n)
      RECURSIVE_REFERENCE None None None
      (Some {| createdAt := createdAt m;
               evaluationStatus := evaluationStatus m;
               recursionDepth := roundToDouble (recursionDepth m + 1);
               memoizationKey := memoizationKey m |}) in
  let selfRef' :=
    {| ThoughtNode.id := ThoughtNode.id selfRef;
       ThoughtNode.content := ThoughtNode.content selfRef;
       ThoughtNode.type := ThoughtNode.type selfRef;
       ThoughtNode.subThoughts := ThoughtNode.subThoughts selfRef;
       ThoughtNode.aliasNode := Some this;
       ThoughtNode.isomorphicRepresentations :=
         ThoughtNode.isomorphicRepresentations selfRef;
       ThoughtNode.metadata := ThoughtNode.metadata selfRef |} in
  Some (alloc h selfRef').

(** [this.addSubThought(subThought)]: pushes onto the node's own
    [subThoughts] array, in place. *)
Definition addSubThought (h : Heap) (this subThought : ref) : option Heap :=
  n ← h !! this;
  Some (<[this :=
           {| ThoughtNode.id := ThoughtNode.id n;
              ThoughtNode.content := ThoughtNode.content n;
              ThoughtNode.type := ThoughtNode.type n;
              ThoughtNode.subThoughts := ThoughtNode.subThoughts n ++ [subThought];
              ThoughtNode.aliasNode := ThoughtNode.aliasNode n;
              ThoughtNode.isomorphicRepresentations :=
                ThoughtNode.isomorphicRepresentations n;
              ThoughtNode.metadata := ThoughtNode.metadata n |}]> h).

(** The node [n] with its metadata replaced: the assignments of the mutators
    below write single fields of [this.metadata].  A node is kept together
    with its [metadata], [subThoughts] and [isomorphicRepresentations]
    objects: what the mutators do to [this] is what is modelled (nodes
    constructed from one and the same props object would share them). *)
Definition withMetadata (n : ThoughtNode.t) (m : Metadata) : ThoughtNode.t :=
  {| ThoughtNode.id := ThoughtNode.id n;
     ThoughtNode.content := ThoughtNode.content n;
     ThoughtNode.type := ThoughtNode.type n;
     ThoughtNode.subThoughts := ThoughtNode.subThoughts n;
     ThoughtNode.aliasNode := ThoughtNode.aliasNode n;
     ThoughtNode.isomorphicRepresentations :=
       ThoughtNode.isomorphicRepresentations n;
     ThoughtNode.metadata := m |}.

(** [this.updateEvaluationStatus(status)]. *)
Definition updateEvaluationStatus (h : Heap) (this : ref)
    (status : EvaluationStatus) : option Heap :=
  n ← h !! this;
  let m := ThoughtNode.metadata n in
  Some (<[this :=
           withMetadata n
             {| createdAt := createdAt m;
                evaluationStatus := status;
                recursionDepth := recursionDepth m;
                memoizationKey := memoizationKey m |}]> h).

(** [this.memoize(key)]: the key is assigned first, then the status. *)
Definition memoize (h : Heap) (this : ref) (key : string) : option Heap :=
  n ← h !! this;
  let m := ThoughtNode.metadata n in
  let m1 := {| createdAt := createdAt m;
               evaluationStatus := evaluationStatus m;
               recursionDepth := recursionDepth m;
               memoizationKey := Some key |} in
  Some (<[this :=
           withMetadata n
             {| createdAt := createdAt m1;
                evaluationStatus := MEMOIZED;
                recursionDepth := recursionDepth m1;
                memoizationKey := memoizationKey m1 |}]> h).

(** The three keys of [isomorphicRepresentations]. *)
Inductive Domain := Computational | Cognitive | Representational.

Definition setRepresentation (iso : IsomorphicRepresentations) (domain : Domain)
    (representation : any) : IsomorphicRepresentations :=
  match domain with
  | Computational =>
      {| computational := Some representation;
         cognitive := cognitive iso;
         representational := representational iso |}
  | Cognitive =>
      {| computational := computational iso;
         cognitive := Some representation;
         representational := representational iso |}
  | Representational =>
      {| computational := computational iso;
         cognitive := cognitive iso;
         representational := Some representation |}
  end.

Definition getRepresentation (iso : IsomorphicRepresentations) (domain : Domain)
    : option any :=
  match domain with
  | Computational => computational iso
  | Cognitive => cognitive iso
  | Representational => representational iso
  end.

(** [this.createIsomorphicRepresentation(domain, representation)]. *)
Definition createIsomorphicRepresentation (h : Heap) (this : ref)
    (domain : Domain) (representation : any) : option Heap :=
  n ← h !! this;
  Some (<[this :=
           {| ThoughtNode.id := ThoughtNode.id n;
              ThoughtNode.content := ThoughtNode.content n;
              ThoughtNode.type := ThoughtNode.type n;
              ThoughtNode.subThoughts := ThoughtNode.subThoughts n;
              ThoughtNode.aliasNode := ThoughtNode.aliasNode n;
              ThoughtNode.isomorphicRepresentations :=
                setRepresentation (ThoughtNode.isomorphicRepresentations n)
                  domain representation;
              ThoughtNode.metadata := ThoughtNode.metadata n |}]> h).

(** ** src/components/ThoughtTree.tsx: the flattening pass *)

Module D3Node.
(** [x] and [y] are absent until the force simulation runs. *)
Record t := mk {
  id : string;
  reflexive : bool;
  type : ThoughtNodeType;
  content : string;
  status : EvaluationStatus;
  recursionDepth : Z;
  originalNode : ref;
}.
End D3Node.

Module D3Link.
Record t := mk {
  source : D3Node.t;
  target : D3Node.t;
  isAlias : bool;
}.
End D3Link.

(** What the pass can see and change: the ThoughtNode objects and the two
    arrays [d3Nodes] and [d3Links] of the effect's closure. *)
Record Store := {
  heap : Heap;
  d3Nodes : list D3Node.t;
  d3Links : list D3Link.t;
}.

(** [OutOfFuel] belongs to the embedding only (the recursion of [processNode]
    is not structural); [TypeError] is a property read through a reference
    that is no object, which TypeScript's types exclude. *)
Inductive Outcome (A : Type) :=
  | Ok (a : A)
  | OutOfFuel
  | TypeError.
Arguments Ok {A} a.
Arguments OutOfFuel {A}.
Arguments TypeError {A}.

#[global] Instance Outcome_bind : MBind Outcome := λ A B k m,
  match m with
  | Ok a => k a
  | OutOfFuel => OutOfFuel
  | TypeError => TypeError
  end.

(** [d3Nodes.push(n)], [d3Links.push(l)]. *)
Definition push_node (g : D3Node.t) (st : Store) : Store :=
  {| heap := heap st; d3Nodes := d3Nodes st ++ [g]; d3Links := d3Links st |}.

Definition push_link (l : D3Link.t) (st : Store) : Store :=
  {| heap := heap st; d3Nodes := d3Nodes st; d3Links := d3Links st ++ [l] |}.

(** The object literal built at the top of [processNode]. *)
Definition mkD3Node (node : ref) (n : ThoughtNode.t) : D3Node.t :=
  {| D3Node.id := ThoughtNode.id n;
     D3Node.reflexive := bool_decide (is_Some (ThoughtNode.aliasNode n));
     D3Node.type := ThoughtNode.type n;
     D3Node.content := ThoughtNode.content n;
     D3Node.status := evaluationStatus (ThoughtNode.metadata n);
     D3Node.recursionDepth := recursionDepth (ThoughtNode.metadata n);
     D3Node.originalNode := node |}.

(** The predicate of [d3Links.some(...)]: [link] joins ids [a] and [b], in
    either direction. *)
Definition joins (a b : string) (link : D3Link.t) : bool :=
  (String.eqb (D3Node.id (D3Link.source link)) a
   && String.eqb (D3Node.id (D3Link.target link)) b)
  || (String.eqb (D3Node.id (D3Link.target link)) a
      && String.eqb (D3Node.id (D3Link.source link)) b).

(** The predicate of [d3Nodes.find(...)]. *)
Definition hasId (a : string) (g : D3Node.t) : bool :=
  String.eqb (D3Node.id g) a.

(** The structural link pushed for a child. *)
Definition childLink (d3Node subNode : D3Node.t) : D3Link.t :=
  {| D3Link.source := d3Node; D3Link.target := subNode;
     D3Link.isAlias := false |}.

(** The alias link pushed for an alias target. *)
Definition aliasLink (d3Node aliasD3Node : D3Node.t) : D3Link.t :=
  {| D3Link.source := d3Node; D3Link.target := aliasD3Node;
     D3Link.isAlias := true |}.

Section Flattening.
Variable maxVisibleDepth : Z.

(** [node.subThoughts.forEach(subThought => ...)], for a visit function
    [visit] standing for the recursive call. *)
Fixpoint forEachSubThought
    (visit : ref → Z → Store → Outcome (option D3Node.t * Store))
    (d3Node : D3Node.t) (depth : Z) (subs : list ref) (st : Store)
    : Outcome Store :=
  match subs with
  | [] => Ok st
  | subThought :: rest =>
      '(subNode, st') ← visit subThought (depth + 1) st;
      match subNode with
      | Some subNode =>
          forEachSubThought visit d3Node depth rest
            (push_link (childLink d3Node subNode) st')
      | None => forEachSubThought visit d3Node depth rest st'
      end
  end.

(** [processNode(node, depth)]; the result [None] is [undefined]. *)
Fixpoint processNode (fuel : nat) (node : ref) (depth : Z) (st : Store)
    : Outcome (option D3Node.t * Store) :=
  match fuel with
  | O => OutOfFuel
  | S fuel =>
      if depth >? maxVisibleDepth then Ok (None, st) else
      match heap st !! node with
      | None => TypeError
      | Some n =>
          let d3Node := mkD3Node node n in
          st2 ← forEachSubThought (processNode fuel) d3Node depth
                   (ThoughtNode.subThoughts n) (push_node d3Node st);
          match ThoughtNode.aliasNode n with
          | None => Ok (Some d3Node, st2)
          | Some alias =>
              match heap st2 !! alias with
              | None => TypeError
              | Some an =>
                  if existsb (joins (ThoughtNode.id n) (ThoughtNode.id an))
                       (d3Links st2)
                  then Ok (Some d3Node, st2)
                  else
                    '(aliasD3Node, st3) ←
                      match find (hasId (ThoughtNode.id an)) (d3Nodes st2) with
                      | Some g => Ok (Some g, st2)
                      | None => processNode fuel alias depth st2
                      end;
                    match aliasD3Node with
                    | Some aliasD3Node =>
                        Ok (Some d3Node,
                            push_link (aliasLink d3Node aliasD3Node) st3)
                    | None => Ok (Some d3Node, st3)
                    end
              end
          end
      end
  end.

(** [rootThoughts.forEach(rootThought => processNode(rootThought))]. *)
Fixpoint forEachRoot (fuel : nat) (rootThoughts : list ref) (st : Store)
    : Outcome Store :=
  match rootThoughts with
  | [] => Ok st
  | rootThought :: rest =>
      '(_, st') ← processNode fuel rootThought 0 st;
      forEachRoot fuel rest st'
  end.

(** The body of the effect: both arrays start empty. *)
Definition flattenWith (fuel : nat) (h : Heap) (rootThoughts : list ref)
    : Outcome Store :=
  forEachRoot fuel rootThoughts {| heap := h; d3Nodes := []; d3Links := [] |}.

(** Fuel that always suffices (see [processNode_terminates]). *)
Definition enoughFuel (h : Heap) : nat :=
  S (length h + Z.to_nat (maxVisibleDepth + 1)).

Definition flatten (h : Heap) (rootThoughts : list ref) : Outcome Store :=
  flattenWith (enoughFuel h) h rootThoughts.
End Flattening.

(** *** The runs of the pass

    The same code as a big-step relation, one rule for each path through the
    body of [processNode]: [Visit maxVisibleDepth node depth st r st'] is a
    call [processNode(node, depth)] that starts with the arrays of [st],
    returns [r] and leaves the arrays of [st'].  A call that reads a property
    through a reference that is no object throws and has no rule; a call
    whose recursion never returns has no derivation. *)
Inductive Visit (maxVisibleDepth : Z)
    : ref → Z → Store → option D3Node.t → Store → Prop :=
  | Visit_beyond node depth st :
      maxVisibleDepth < depth →
      Visit maxVisibleDepth node depth st None st
  | Visit_within node depth st n st2 st' :
      depth ≤ maxVisibleDepth →
      heap st !! node = Some n →
      SubThoughts maxVisibleDepth (mkD3Node node n) depth
        (ThoughtNode.subThoughts n) (push_node (mkD3Node node n) st) st2 →
      AliasResolution maxVisibleDepth n (mkD3Node node n) depth st2 st' →
      Visit maxVisibleDepth node depth st (Some (mkD3Node node n)) st'
with SubThoughts (maxVisibleDepth : Z)
    : D3Node.t → Z → list ref → Store → Store → Prop :=
  | SubThoughts_done d3Node depth st :
      SubThoughts maxVisibleDepth d3Node depth [] st st
  | SubThoughts_linked d3Node depth subThought rest st subNode st' st2 :
      Visit maxVisibleDepth subThought (depth + 1) st (Some subNode) st' →
      SubThoughts maxVisibleDepth d3Node depth rest
        (push_link (childLink d3Node subNode) st') st2 →
      SubThoughts maxVisibleDepth d3Node depth (subThought :: rest) st st2
  | SubThoughts_omitted d3Node depth subThought rest st st' st2 :
      Visit maxVisibleDepth subThought (depth + 1) st None st' →
      SubThoughts maxVisibleDepth d3Node depth rest st' st2 →
      SubThoughts maxVisibleDepth d3Node depth (subThought :: rest) st st2
with AliasResolution (maxVisibleDepth : Z)
    : ThoughtNode.t → D3Node.t → Z → Store → Store → Prop :=
  | AliasResolution_absent n d3Node depth st :
      ThoughtNode.aliasNode n = None →
      AliasResolution maxVisibleDepth n d3Node depth st st
  | AliasResolution_joined n d3Node depth st alias an :
      ThoughtNode.aliasNode n = Some alias →
      heap st !! alias = Some an →
      existsb (joins (ThoughtNode.id n) (ThoughtNode.id an)) (d3Links st) = true →
      AliasResolution maxVisibleDepth n d3Node depth st st
  | AliasResolution_found n d3Node depth st alias an g :
      ThoughtNode.aliasNode n = Some alias →
      heap st !! alias = Some an →
      existsb (joins (ThoughtNode.id n) (ThoughtNode.id an)) (d3Links st) = false →
      find (hasId (ThoughtNode.id an)) (d3Nodes st) = Some g →
      AliasResolution maxVisibleDepth n d3Node depth st
        (push_link (aliasLink d3Node g) st)
  | AliasResolution_visited n d3Node depth st alias an g st3 :
      ThoughtNode.aliasNode n = Some alias →
      heap st !! alias = Some an →
      existsb (joins (ThoughtNode.id n) (ThoughtNode.id an)) (d3Links st) = false →
      find (hasId (ThoughtNode.id an)) (d3Nodes st) = None →
      Visit maxVisibleDepth alias depth st (Some g) st3 →
      AliasResolution maxVisibleDepth n d3Node depth st
        (push_link (aliasLink d3Node g) st3)
  | AliasResolution_omitted n d3Node depth st alias an st3 :
      ThoughtNode.aliasNode n = Some alias →
      heap st !! alias = Some an →
      existsb (joins (ThoughtNode.id n) (ThoughtNode.id an)) (d3Links st) = false →
      find (hasId (ThoughtNode.id an)) (d3Nodes st) = None →
      Visit maxVisibleDepth alias depth st None st3 →
      AliasResolution maxVisibleDepth n d3Node depth st st3.

Scheme Visit_runs_ind := Minimality for Visit Sort Prop
  with SubThoughts_runs_ind := Minimality for SubThoughts Sort Prop
  with AliasResolution_runs_ind := Minimality for AliasResolution Sort Prop.

Combined Scheme runs_ind
  from Visit_runs_ind, SubThoughts_runs_ind, AliasResolution_runs_ind.

(** [rootThoughts.forEach(rootThought => processNode(rootThought))]: the
    result of each call is dropped. *)
Inductive Roots (maxVisibleDepth : Z) : list ref → Store → Store → Prop :=
  | Roots_done st : Roots maxVisibleDepth [] st st
  | Roots_visited rootThought rest st r st' st2 :
      Visit maxVisibleDepth rootThought 0 st r st' →
      Roots maxVisibleDepth rest st' st2 →
      Roots maxVisibleDepth (rootThought :: rest) st st2.

(** A run of the effect on the forest [h] with the roots [rootThoughts]. *)
Definition Flattens (maxVisibleDepth : Z) (h : Heap) (rootThoughts : list ref)
    (st : Store) : Prop :=
  Roots maxVisibleDepth rootThoughts {| heap := h; d3Nodes := []; d3Links := [] |} st.

(** ** src/components/ThoughtTree.tsx: the rendering attributes

    The callbacks handed to [attr], [text] and [filter] in the second effect
    are functions of the datum alone.  A character of a [string] stands for
    one UTF-16 code unit of the JavaScript string. *)

(** [NODE_COLORS[d.type]]. *)
Definition NODE_COLORS (type : ThoughtNodeType) : string :=
  match type with
  | QUESTION => "#4285F4"
  | HYPOTHESIS => "#0F9D58"
  | EVALUATION => "#F4B400"
  | CONCLUSION => "#DB4437"
  | META_REFLECTION => "#9C27B0"
  | RECURSIVE_REFERENCE => "#673AB7"
  end.

(** [r] of the node circle, [10 + (d.recursionDepth * 2)], and the radius
    handed to [forceCollide], [20 + (d.recursionDepth * 2)]: a product and a
    sum of doubles. *)
Definition nodeRadius (d : D3Node.t) : Number :=
  numberAdd 10 (numberMul (D3Node.recursionDepth d) 2).

Definition collisionRadius (d : D3Node.t) : Number :=
  numberAdd 20 (numberMul (D3Node.recursionDepth d) 2).

(** The label: [d.content.length > 20 ? `${d.content.substring(0, 17)}...`
    : d.content]. *)
Definition nodeLabel (d : D3Node.t) : string :=
  if (20 <? String.length (D3Node.content d))%nat
  then String.substring 0 17 (D3Node.content d) +:+ "..."
  else D3Node.content d.

(** The status indicator: the filter that selects the nodes that get one,
    and its fill, [default] branch included. *)
Definition hasStatusIndicator (d : D3Node.t) : bool :=
  match D3Node.status d with
  | PENDING => false
  | _ => true
  end.

Definition statusIndicatorFill (d : D3Node.t) : string :=
  match D3Node.status d with
  | COMPLETE => "#0F9D58"
  | IN_PROGRESS => "#F4B400"
  | ERROR => "#DB4437"
  | MEMOIZED => "#9C27B0"
  | _ => "#999"
  end.

(** The arrow markers: one per entry of [['standard', 'alias']]. *)
Definition markerKinds : list string := ["standard"; "alias"].

Definition markerId (d : string) : string := "arrow-" +:+ d.

Definition markerFill (d : string) : string :=
  if String.eqb d "alias" then "#9C27B0" else "#999".

(** The attributes of a link path. *)
Definition linkStroke (d : D3Link.t) : string :=
  if D3Link.isAlias d then "#9C27B0" else "#999".

Definition linkMarkerEnd (d : D3Link.t) : string :=
  "url(#arrow-" +:+ (if D3Link.isAlias d then "alias" else "standard") +:+ ")".

(** ** Vocabulary of the properties *)

(** Every reference stored in an object of [h] is an object of [h]. *)
Definition refs_ok (h : Heap) (n : ThoughtNode.t) : bool :=
  forallb (λ c, bool_decide (c < length h)%nat) (ThoughtNode.subThoughts n)
  && match ThoughtNode.aliasNode n with
     | Some a => bool_decide (a < length h)%nat
     | None => true
     end.

Definition heap_closed (h : Heap) : bool := forallb (refs_ok h) h.

Definition roots_ok (h : Heap) (rootThoughts : list ref) : bool :=
  forallb (λ r, bool_decide (r < length h)%nat) rootThoughts.

(** The ids of the GraphNodes made so far, the ids of all objects, and the
    ids that have no GraphNode yet. *)
Definition seenIds (st : Store) : gset string :=
  list_to_set (D3Node.id <$> d3Nodes st).

Definition heapIds (h : Heap) : gset string :=
  list_to_set (ThoughtNode.id <$> h).

Definition unseen (st : Store) : gset string :=
  heapIds (heap st) ∖ seenIds st.

(** [alias_reach h x y]: [y] is reached from [x] by following [aliasNode]
    references only. *)
Definition alias_edge (h : Heap) (x y : ref) : Prop :=
  ∃ n, h !! x = Some n ∧ ThoughtNode.aliasNode n = Some y.

Definition alias_reach (h : Heap) : ref → ref → Prop := rtc (alias_edge h).

(** [reached maxD h roots x d]: [x] can be visited at depth [d], starting at
    a root at depth 0, a [subThoughts] edge going one level down while the
    level stays within [maxD], an [aliasNode] edge staying on the level. *)
Inductive reached (maxD : Z) (h : Heap) (roots : list ref) : ref → Z → Prop :=
  | reached_root r :
      r ∈ roots → 0 ≤ maxD → reached maxD h roots r 0
  | reached_child x d n c :
      reached maxD h roots x d → h !! x = Some n →
      c ∈ ThoughtNode.subThoughts n → d + 1 ≤ maxD →
      reached maxD h roots c (d + 1)
  | reached_alias x d n a :
      reached maxD h roots x d → h !! x = Some n →
      ThoughtNode.aliasNode n = Some a →
      reached maxD h roots a d.

(** [descends maxD h x d y e]: from [x] at depth [d], [subThoughts] edges
    alone lead to [y] at depth [e], never leaving the depth bound. *)
Inductive descends (maxD : Z) (h : Heap) : ref → Z → ref → Z → Prop :=
  | descends_here x d :
      d ≤ maxD → descends maxD h x d x d
  | descends_child x d n c y e :
      d ≤ maxD → h !! x = Some n → c ∈ ThoughtNode.subThoughts n →
      descends maxD h c (d + 1) y e →
      descends maxD h x d y e.

(** [visible maxD h roots x]: structural descent from some root reaches [x]
    within the depth bound. *)
Definition visible (maxD : Z) (h : Heap) (roots : list ref) (x : ref) : Prop :=
  ∃ r e, r ∈ roots ∧ descends maxD h r 0 x e.

(** The GraphNodes are those of objects of [h], and the endpoints of every
    link are in the node list. *)
Definition well_formed (h : Heap) (st : Store) : Prop :=
  heap st = h
  ∧ (∀ g, g ∈ d3Nodes st →
       ∃ n, h !! D3Node.originalNode g = Some n
            ∧ g = mkD3Node (D3Node.originalNode g) n)
  ∧ (∀ l, l ∈ d3Links st →
       D3Link.source l ∈ d3Nodes st ∧ D3Link.target l ∈ d3Nodes st).

(** Every GraphNode belongs to an object that can be visited within the
    bound, and the target of every structural link was visited at level 1 or
    deeper. *)
Definition within_bound (maxD : Z) (h : Heap) (roots : list ref) (st : Store)
    : Prop :=
  (∀ g, g ∈ d3Nodes st → ∃ d, reached maxD h roots (D3Node.originalNode g) d)
  ∧ (∀ l, l ∈ d3Links st → D3Link.isAlias l = false →
       ∃ d, 1 ≤ d ∧ reached maxD h roots (D3Node.originalNode (D3Link.target l)) d).

(** The number of GraphNodes that carry id [a], and whether some link joins
    ids [a] and [b]. *)
Definition count_id (a : string) (st : Store) : nat :=
  length (filter (λ g, D3Node.id g = a) (d3Nodes st)).

Definition joined (a b : string) (st : Store) : Prop :=
  ∃ l, l ∈ d3Links st ∧ joins a b l = true.

(** [st'] is [st] after some pushes: same objects, both arrays extended at
    their end. *)
Definition extends (st st' : Store) : Prop :=
  heap st' = heap st
  ∧ d3Nodes st `prefix_of` d3Nodes st'
  ∧ d3Links st `prefix_of` d3Links st'.

(** What the alias step of a completed visit did, case by case: [st2] is the
    store after the loop over the children. *)
Inductive AliasStep (maxVisibleDepth : Z) (fuel : nat) (n : ThoughtNode.t)
    (d3Node : D3Node.t) (depth : Z) (st2 : Store) : Store → Prop :=
  | alias_absent :
      ThoughtNode.aliasNode n = None →
      AliasStep maxVisibleDepth fuel n d3Node depth st2 st2
  | alias_joined alias an :
      ThoughtNode.aliasNode n = Some alias →
      heap st2 !! alias = Some an →
      existsb (joins (ThoughtNode.id n) (ThoughtNode.id an)) (d3Links st2) = true →
      AliasStep maxVisibleDepth fuel n d3Node depth st2 st2
  | alias_found alias an g :
      ThoughtNode.aliasNode n = Some alias →
      heap st2 !! alias = Some an →
      existsb (joins (ThoughtNode.id n) (ThoughtNode.id an)) (d3Links st2) = false →
      find (hasId (ThoughtNode.id an)) (d3Nodes st2) = Some g →
      AliasStep maxVisibleDepth fuel n d3Node depth st2
        (push_link (aliasLink d3Node g) st2)
  | alias_visited alias an g st3 :
      ThoughtNode.aliasNode n = Some alias →
      heap st2 !! alias = Some an →
      existsb (joins (ThoughtNode.id n) (ThoughtNode.id an)) (d3Links st2) = false →
      find (hasId (ThoughtNode.id an)) (d3Nodes st2) = None →
      processNode maxVisibleDepth fuel alias depth st2 = Ok (Some g, st3) →
      AliasStep maxVisibleDepth fuel n d3Node depth st2
        (push_link (aliasLink d3Node g) st3)
  | alias_invisible alias an st3 :
      ThoughtNode.aliasNode n = Some alias →
      heap st2 !! alias = Some an →
      existsb (joins (ThoughtNode.id n) (ThoughtNode.id an)) (d3Links st2) = false →
      find (hasId (ThoughtNode.id an)) (d3Nodes st2) = None →
      processNode maxVisibleDepth fuel alias depth st2 = Ok (None, st3) →
      AliasStep maxVisibleDepth fuel n d3Node depth st2 st3.

(** What holds between visits: the store is well formed, at most one
    GraphNode carries the id of [B], and if any link joins the ids of [A] and
    [B] then the alias link from [A] to [B] is there. *)
Definition between_visits (h : Heap) (A B : ref) (an bn : ThoughtNode.t)
    (st : Store) : Prop :=
  well_formed h st
  ∧ (count_id (ThoughtNode.id bn) st ≤ 1)%nat
  ∧ (joined (ThoughtNode.id an) (ThoughtNode.id bn) st →
     aliasLink (mkD3Node A an) (mkD3Node B bn) ∈ d3Links st).

(** What a completed visit guarantees. *)
Definition visit_spec (maxVisibleDepth : Z) (h : Heap) (A B : ref)
    (an bn : ThoughtNode.t) (fuel : nat) : Prop :=
  ∀ X d st r st',
    processNode maxVisibleDepth fuel X d st = Ok (r, st') →
    between_visits h A B an bn st →
    (X = B → count_id (ThoughtNode.id bn) st = 0%nat) →
    well_formed h st'
    ∧ (count_id (ThoughtNode.id bn) st' ≤ 1)%nat
    ∧ (X ≠ B →
       (joined (ThoughtNode.id an) (ThoughtNode.id bn) st' →
        aliasLink (mkD3Node A an) (mkD3Node B bn) ∈ d3Links st')
       ∧ ∀ e, descends maxVisibleDepth h X d A e →
           aliasLink (mkD3Node A an) (mkD3Node B bn) ∈ d3Links st').

(** ** Sample forests and views of the output *)

(** A node as [new ThoughtNode({id, content: id, type: 'question',
    subThoughts, aliasNode})] makes it, at time [0]. *)
Definition thought (i : string) (subs : list ref) (alias : option ref)
    : ThoughtNode.t :=
  constructor 0 i i QUESTION (Some subs) alias None None.

(** A node as [new ThoughtNode({id, content: id, type: 'question',
    metadata: {createdAt, evaluationStatus: 'pending', recursionDepth}})]
    makes it. *)
Definition thoughtAtDepth (i : string) (depth : Z) : ThoughtNode.t :=
  constructor 0 i i QUESTION None None None
    (Some {| createdAt := 0; evaluationStatus := PENDING;
             recursionDepth := depth; memoizationKey := None |}).

(** The ids of the GraphNodes and the endpoints of the GraphLinks, in output
    order. *)
Definition nodeIds (st : Store) : list string := D3Node.id <$> d3Nodes st.

Definition linkEnds (st : Store) : list (string * string * bool) :=
  (λ l, (D3Node.id (D3Link.source l), D3Node.id (D3Link.target l),
         D3Link.isAlias l)) <$> d3Links st.

(** The same as unordered sets. *)
Definition nodeSet (st : Store) : gset string := list_to_set (nodeIds st).

Definition linkSet (st : Store) : gset (string * string * bool) :=
  list_to_set (linkEnds st).

(** *** Sample forests *)

(** A root "a" with children "b" and "c", where "b" aliases its sibling "c". *)
Definition siblingAliasForest : Heap :=
  [thought "a" [1%nat; 2%nat] None; thought "b" [] (Some 2%nat); thought "c" [] None].

(** A root "p" whose only child is [p.createSelfReference()], built with the
    model's own operations. *)
Definition selfReferenceForest : option Heap :=
  '(r, h) ← createSelfReference 0 [thought "p" [] None] 0%nat;
  addSubThought h 0%nat r.

(** Two nodes aliasing each other; only "a" is a root. *)
Definition mutualAliasForest : Heap :=
  [thought "a" [] (Some 1%nat); thought "b" [] (Some 0%nat)].

(** A root "a" with child "b" that is also its alias target. *)
Definition childAliasForest : Heap :=
  [thought "a" [1%nat] (Some 1%nat); thought "b" [] None].

(** A root "r" with child "a"; "a" aliases "b", which nothing else mentions. *)
Definition strayAliasForest : Heap :=
  [thought "r" [1%nat] None; thought "a" [] (Some 2%nat); thought "b" [] None].

(** A chain of aliases: the root "s2" aliases "s1", which aliases "n"; no
    node has a child. *)
Definition aliasChainForest : Heap :=
  [thought "n" [] None; thought "s1" [] (Some 0%nat); thought "s2" [] (Some 1%nat)].

(** Two objects with the same id "r": the root, and its alias target. *)
Definition sameIdForest : Heap :=
  [thought "r" [] (Some 1%nat); thought "r" [] None].

(** A link says what the forest says: a structural link goes from a node to
    one of its [subThoughts]; an alias link leaves a node that has an
    [aliasNode] and ends at a GraphNode that carries the id of that node. *)
Definition link_sound (h : Heap) (l : D3Link.t) : Prop :=
  ∃ n, h !! D3Node.originalNode (D3Link.source l) = Some n
    ∧ if D3Link.isAlias l
      then ∃ a an, ThoughtNode.aliasNode n = Some a ∧ h !! a = Some an
                   ∧ D3Node.id (D3Link.target l) = ThoughtNode.id an
      else D3Node.originalNode (D3Link.target l) ∈ ThoughtNode.subThoughts n.

(** The alias of the node behind [g] is served in [st]: if that node has an
    [aliasNode], some link joins the two ids and some GraphNode carries the
    id of the alias target. *)
Definition alias_served (h : Heap) (st : Store) (g : D3Node.t) : Prop :=
  ∀ n a an,
    h !! D3Node.originalNode g = Some n →
    ThoughtNode.aliasNode n = Some a → h !! a = Some an →
    joined (ThoughtNode.id n) (ThoughtNode.id an) st
    ∧ ∃ g', g' ∈ d3Nodes st ∧ D3Node.id g' = ThoughtNode.id an.

(** No object of [h] has an [aliasNode]. *)
Definition alias_free (h : Heap) : Prop :=
  Forall (λ n, ThoughtNode.aliasNode n = None) h.

(** The pre-order walk of the [subThoughts] below [x], [levels] levels deep,
    and the parent-child pairs in the order in which their links are pushed:
    the link to a child comes after the links below that child. *)
Fixpoint preorder (h : Heap) (levels : nat) (x : ref) : list ref :=
  match levels with
  | O => []
  | S k =>
      x :: (default [] (ThoughtNode.subThoughts <$> h !! x) ≫= preorder h k)
  end.

Fixpoint preorderLinks (h : Heap) (levels : nat) (x : ref) : list (ref * ref) :=
  match levels with
  | O => []
  | S k =>
      default [] (ThoughtNode.subThoughts <$> h !! x) ≫=
        λ c, preorderLinks h k c ++ match k with O => [] | S _ => [(x, c)] end
  end.

(** The objects behind the GraphNodes and behind the ends of the links, in
    output order. *)
Definition nodeRefs (st : Store) : list ref := D3Node.originalNode <$> d3Nodes st.

Definition linkRefs (st : Store) : list (ref * ref) :=
  (λ l, (D3Node.originalNode (D3Link.source l),
         D3Node.originalNode (D3Link.target l))) <$> d3Links st.

(** A root "r" with children "a" and "b", and "c" below "a"; no aliases. *)
Definition plainForest : Heap :=
  [thought "r" [1%nat; 2%nat] None; thought "a" [3%nat] None;
   thought "b" [] None; thought "c" [] None].

(** ** Basic facts about the store *)

#[global] Instance extends_preorder : PreOrder extends.
Proof.
  split.
  - intros st. by repeat split.
  - intros s1 s2 s3 (Hh1 & Hn1 & Hl1) (Hh2 & Hn2 & Hl2). repeat split.
    + congruence.
    + by etrans.
    + by etrans.
Qed.

Lemma extends_push_node g st : extends st (push_node g st).
Proof. repeat split; simpl; try done. by apply prefix_app_r. Qed.

Lemma extends_push_link l st : extends st (push_link l st).
Proof. repeat split; simpl; try done. by apply prefix_app_r. Qed.

Lemma extends_heap st st' : extends st st' → heap st' = heap st.
Proof. by intros (? & _). Qed.

Lemma extends_node st st' g : extends st st' → g ∈ d3Nodes st → g ∈ d3Nodes st'.
Proof. intros (_ & [k ->] & _) ?. apply elem_of_app. by left. Qed.

Lemma extends_link st st' l : extends st st' → l ∈ d3Links st → l ∈ d3Links st'.
Proof. intros (_ & _ & [k ->]) ?. apply elem_of_app. by left. Qed.

Lemma Outcome_bind_Ok {A B} (m : Outcome A) (k : A → Outcome B) b :
  m ≫= k = Ok b → ∃ a, m = Ok a ∧ k a = Ok b.
Proof. destruct m; try done. intros ?. by eexists. Qed.

Lemma Outcome_bind_ret {A B} (a : A) (k : A → Outcome B) : Ok a ≫= k = k a.
Proof. done. Qed.

Lemma joins_spec a b l :
  joins a b l = true ↔
    (D3Node.id (D3Link.source l) = a ∧ D3Node.id (D3Link.target l) = b)
    ∨ (D3Node.id (D3Link.target l) = a ∧ D3Node.id (D3Link.source l) = b).
Proof.
  unfold joins. rewrite orb_true_iff, !andb_true_iff, !String.eqb_eq. tauto.
Qed.

Lemma find_hasId_Some a ns g :
  find (hasId a) ns = Some g → g ∈ ns ∧ D3Node.id g = a.
Proof.
  intros [Hin Hid]%find_some. split.
  - by apply list_elem_of_In.
  - by apply String.eqb_eq.
Qed.

Lemma find_hasId_None a ns g :
  find (hasId a) ns = None → g ∈ ns → D3Node.id g ≠ a.
Proof.
  intros Hnone Hin%list_elem_of_In Hid.
  pose proof (find_none _ _ Hnone _ Hin) as Hf.
  unfold hasId in Hf. apply String.eqb_neq in Hf. done.
Qed.

Section FlatteningFacts.
Variable maxVisibleDepth : Z.

Abbreviation processNode := (processNode maxVisibleDepth).
Abbreviation forEachRoot := (forEachRoot maxVisibleDepth).
Abbreviation flattenWith := (flattenWith maxVisibleDepth).
Abbreviation flatten := (flatten maxVisibleDepth).
Abbreviation AliasStep := (AliasStep maxVisibleDepth).

(** The loop-invariant rule for the [forEach] over the children. *)
Lemma forEachSubThought_invariant (I : Store → Prop) visit d3Node depth subs st st2 :
  (∀ c s r s', c ∈ subs → I s → visit c (depth + 1) s = Ok (r, s') →
     match r with
     | Some g => I (push_link (childLink d3Node g) s')
     | None => I s'
     end) →
  I st →
  forEachSubThought visit d3Node depth subs st = Ok st2 →
  I st2.
Proof.
  revert st. induction subs as [|c rest IH]; intros st Hstep HI Hrun; simpl in Hrun.
  - by injection Hrun as <-.
  - apply Outcome_bind_Ok in Hrun as ([r s'] & Hc & Hrest).
    assert (Hc' : c ∈ c :: rest) by apply list_elem_of_here.
    pose proof (Hstep c st r s' Hc' HI Hc) as HI'.
    destruct r as [g|]; (eapply IH; [|exact HI'|exact Hrest]);
      intros c0 s0 r0 s1 Hin; apply Hstep; by apply list_elem_of_further.
Qed.

(** The same rule for showing that the loop completes. *)
Lemma forEachSubThought_total (I : Store → Prop) visit d3Node depth subs st :
  (∀ c s, c ∈ subs → I s →
     ∃ r s', visit c (depth + 1) s = Ok (r, s')
       ∧ match r with
         | Some g => I (push_link (childLink d3Node g) s')
         | None => I s'
         end) →
  I st →
  ∃ st2, forEachSubThought visit d3Node depth subs st = Ok st2 ∧ I st2.
Proof.
  revert st. induction subs as [|c rest IH]; intros st Hstep HI; simpl.
  - by exists st.
  - destruct (Hstep c st) as (r & s' & Hc & HI'); [apply list_elem_of_here|done|].
    rewrite Hc. simpl.
    destruct r as [g|]; (apply IH; [|exact HI']);
      intros c0 s0 Hin; apply Hstep; by apply list_elem_of_further.
Qed.

Lemma forEachSubThought_cons visit d3Node depth c rest st :
  forEachSubThought visit d3Node depth (c :: rest) st =
    '(subNode, st') ← visit c (depth + 1) st;
    match subNode with
    | Some subNode =>
        forEachSubThought visit d3Node depth rest
          (push_link (childLink d3Node subNode) st')
    | None => forEachSubThought visit d3Node depth rest st'
    end.
Proof. done. Qed.

Lemma processNode_S fuel node depth st :
  processNode (S fuel) node depth st =
    if depth >? maxVisibleDepth then Ok (None, st) else
    match heap st !! node with
    | None => TypeError
    | Some n =>
        let d3Node := mkD3Node node n in
        st2 ← forEachSubThought (processNode fuel) d3Node depth
                 (ThoughtNode.subThoughts n) (push_node d3Node st);
        match ThoughtNode.aliasNode n with
        | None => Ok (Some d3Node, st2)
        | Some alias =>
            match heap st2 !! alias with
            | None => TypeError
            | Some an =>
                if existsb (joins (ThoughtNode.id n) (ThoughtNode.id an))
                     (d3Links st2)
                then Ok (Some d3Node, st2)
                else
                  '(aliasD3Node, st3) ←
                    match find (hasId (ThoughtNode.id an)) (d3Nodes st2) with
                    | Some g => Ok (Some g, st2)
                    | None => processNode fuel alias depth st2
                    end;
                  match aliasD3Node with
                  | Some aliasD3Node =>
                      Ok (Some d3Node,
                          push_link (aliasLink d3Node aliasD3Node) st3)
                  | None => Ok (Some d3Node, st3)
                  end
            end
        end
    end.
Proof. done. Qed.

Lemma processNode_inv fuel node depth st r st' :
  processNode (S fuel) node depth st = Ok (r, st') →
  (maxVisibleDepth < depth ∧ r = None ∧ st' = st)
  ∨ (depth ≤ maxVisibleDepth ∧
     ∃ n st2,
       heap st !! node = Some n
       ∧ r = Some (mkD3Node node n)
       ∧ forEachSubThought (processNode fuel) (mkD3Node node n) depth
           (ThoughtNode.subThoughts n) (push_node (mkD3Node node n) st) = Ok st2
       ∧ AliasStep fuel n (mkD3Node node n) depth st2 st').
Proof.
  simpl. destruct (Z.gtb_spec depth maxVisibleDepth) as [Hd|Hd].
  { intros [= <- <-]. left. done. }
  intros Hrun. right. split; [done|].
  destruct (heap st !! node) as [n|] eqn:Hn; [|done].
  apply Outcome_bind_Ok in Hrun as (st2 & Hsubs & Hrun).
  exists n, st2. split; [done|].
  destruct (ThoughtNode.aliasNode n) as [alias|] eqn:Ha.
  2:{ injection Hrun as <- <-. repeat split; try done. by constructor. }
  destruct (heap st2 !! alias) as [an|] eqn:Han; [|done].
  destruct (existsb _ _) eqn:Hex.
  { injection Hrun as <- <-. repeat split; try done. by econstructor 2. }
  destruct (find _ _) as [g|] eqn:Hfind; simpl in Hrun.
  { injection Hrun as <- <-. repeat split; try done. by econstructor 3. }
  apply Outcome_bind_Ok in Hrun as ([[g|] st3] & Hvisit & Hrun);
    injection Hrun as <- <-; repeat split; try done.
  - by econstructor 4.
  - by econstructor 5.
Qed.

Lemma AliasStep_case fuel n d3Node depth st2 st' (P : Prop) :
  AliasStep fuel n d3Node depth st2 st' →
  (st' = st2 → P) →
  (∀ alias an g,
     ThoughtNode.aliasNode n = Some alias → heap st2 !! alias = Some an →
     existsb (joins (ThoughtNode.id n) (ThoughtNode.id an)) (d3Links st2) = false →
     find (hasId (ThoughtNode.id an)) (d3Nodes st2) = Some g →
     st' = push_link (aliasLink d3Node g) st2 → P) →
  (∀ alias an r st3,
     ThoughtNode.aliasNode n = Some alias → heap st2 !! alias = Some an →
     existsb (joins (ThoughtNode.id n) (ThoughtNode.id an)) (d3Links st2) = false →
     find (hasId (ThoughtNode.id an)) (d3Nodes st2) = None →
     processNode fuel alias depth st2 = Ok (r, st3) →
     st' = match r with
           | Some g => push_link (aliasLink d3Node g) st3
           | None => st3
           end → P) →
  P.
Proof.
  intros Hstep H1 H2 H3. destruct Hstep; eauto.
Qed.

(** A visit only pushes: it keeps the objects and extends both arrays. *)
Lemma processNode_extends fuel node depth st r st' :
  processNode fuel node depth st = Ok (r, st') → extends st st'.
Proof.
  revert node depth st r st'.
  induction fuel as [|fuel IH]; intros node depth st r st' Hrun; [done|].
  apply processNode_inv in Hrun as [(_ & _ & ->)|(_ & n & st2 & Hn & -> & Hsubs & Halias)];
    [done|].
  assert (Hst2 : extends st st2).
  { revert Hsubs.
    apply (forEachSubThought_invariant (extends st)); [|apply extends_push_node].
    intros c s r s' _ Hs Hc. apply IH in Hc.
    destruct r; [etrans; [|apply extends_push_link]|]; by etrans. }
  eapply AliasStep_case; [exact Halias|..].
  - by intros ->.
  - intros ??? _ _ _ _ ->. etrans; [exact Hst2|apply extends_push_link].
  - intros ?? r0 st3 _ _ _ _ Hv ->. apply IH in Hv.
    destruct r0; [etrans; [|apply extends_push_link]|]; by etrans.
Qed.

Lemma AliasStep_extends fuel n d3Node depth st2 st' :
  AliasStep fuel n d3Node depth st2 st' → extends st2 st'.
Proof.
  intros Hstep. eapply AliasStep_case; [exact Hstep|..].
  - by intros ->.
  - intros ??? _ _ _ _ ->. apply extends_push_link.
  - intros ?? r st3 _ _ _ _ Hv%processNode_extends ->.
    destruct r; [etrans; [|apply extends_push_link]|]; done.
Qed.

Lemma forEachSubThought_extends fuel d3Node depth subs st st2 :
  forEachSubThought (processNode fuel) d3Node depth subs st = Ok st2 →
  extends st st2.
Proof.
  apply (forEachSubThought_invariant (extends st)); [|done].
  intros c s r s' _ Hs Hc%processNode_extends.
  destruct r; [etrans; [|apply extends_push_link]|]; by etrans.
Qed.

Lemma forEachRoot_extends fuel roots st st' :
  forEachRoot fuel roots st = Ok st' → extends st st'.
Proof.
  revert st. induction roots as [|r rest IH]; intros st Hrun; simpl in Hrun.
  - by injection Hrun as <-.
  - apply Outcome_bind_Ok in Hrun as ([g s] & Hr%processNode_extends & Hrest).
    etrans; [exact Hr|by apply IH].
Qed.

(** More fuel does not change a completed run. *)
Lemma forEachSubThought_mono visit visit' d3Node depth subs st st2 :
  (∀ c d s x, visit c d s = Ok x → visit' c d s = Ok x) →
  forEachSubThought visit d3Node depth subs st = Ok st2 →
  forEachSubThought visit' d3Node depth subs st = Ok st2.
Proof.
  intros Hv. revert st. induction subs as [|c rest IH]; intros st Hrun; [done|].
  simpl in *. apply Outcome_bind_Ok in Hrun as ([r s'] & Hc & Hrest).
  rewrite (Hv _ _ _ _ Hc). simpl. destruct r; by apply IH.
Qed.

Lemma processNode_fuel_mono fuel fuel' node depth st x :
  (fuel ≤ fuel')%nat →
  processNode fuel node depth st = Ok x →
  processNode fuel' node depth st = Ok x.
Proof.
  revert fuel' node depth st x.
  induction fuel as [|fuel IH]; intros fuel' node depth st x Hle Hrun; [done|].
  destruct fuel' as [|fuel']; [lia|].
  assert (Hle' : (fuel ≤ fuel')%nat) by lia.
  simpl in *. destruct (depth >? maxVisibleDepth); [done|].
  destruct (heap st !! node) as [n|]; [|done].
  apply Outcome_bind_Ok in Hrun as (st2 & Hsubs & Hrun).
  rewrite (forEachSubThought_mono _ (processNode fuel') _ _ _ _ _
             (λ c d s y, IH fuel' c d s y Hle') Hsubs). simpl.
  destruct (ThoughtNode.aliasNode n) as [alias|]; [|done].
  destruct (heap st2 !! alias) as [an|]; [|done].
  destruct (existsb _ _); [done|].
  destruct (find _ _); [done|].
  apply Outcome_bind_Ok in Hrun as (y & Hv & Hrun).
  by rewrite (IH fuel' _ _ _ _ Hle' Hv).
Qed.

Lemma forEachRoot_fuel_mono fuel fuel' roots st st' :
  (fuel ≤ fuel')%nat →
  forEachRoot fuel roots st = Ok st' →
  forEachRoot fuel' roots st = Ok st'.
Proof.
  intros Hle. revert st. induction roots as [|r rest IH]; intros st Hrun; [done|].
  simpl in *. apply Outcome_bind_Ok in Hrun as ([g s] & Hr & Hrest).
  rewrite (processNode_fuel_mono _ _ _ _ _ _ Hle Hr). simpl. by apply IH.
Qed.

(** *** Termination *)

Lemma heap_closed_sub h r n c :
  heap_closed h = true → h !! r = Some n →
  c ∈ ThoughtNode.subThoughts n → is_Some (h !! c).
Proof.
  intros Hc Hr Hin. unfold heap_closed in Hc.
  rewrite forallb_forall in Hc.
  apply list_elem_of_lookup_2, list_elem_of_In, Hc in Hr.
  apply andb_true_iff in Hr as [Hr _].
  rewrite forallb_forall in Hr.
  apply list_elem_of_In, Hr, bool_decide_eq_true in Hin.
  by apply lookup_lt_is_Some.
Qed.

Lemma heap_closed_alias h r n a :
  heap_closed h = true → h !! r = Some n →
  ThoughtNode.aliasNode n = Some a → is_Some (h !! a).
Proof.
  intros Hc Hr Ha. unfold heap_closed in Hc.
  rewrite forallb_forall in Hc.
  apply list_elem_of_lookup_2, list_elem_of_In, Hc in Hr.
  apply andb_true_iff in Hr as [_ Hr]. rewrite Ha in Hr.
  apply bool_decide_eq_true in Hr. by apply lookup_lt_is_Some.
Qed.

Lemma roots_ok_root h roots r :
  roots_ok h roots = true → r ∈ roots → is_Some (h !! r).
Proof.
  intros Hok Hin. unfold roots_ok in Hok. rewrite forallb_forall in Hok.
  apply list_elem_of_In, Hok, bool_decide_eq_true in Hin.
  by apply lookup_lt_is_Some.
Qed.

Lemma size_list_to_set_le (l : list string) :
  (size (list_to_set (C:=gset string) l) ≤ length l)%nat.
Proof.
  induction l as [|x l IH].
  - rewrite list_to_set_nil, size_empty. done.
  - rewrite list_to_set_cons, size_union_alt, size_singleton. simpl.
    assert (Hsub : list_to_set (C:=gset string) l ∖ {[x]} ⊆ list_to_set l)
      by set_solver.
    apply subseteq_size in Hsub. lia.
Qed.

Lemma heapIds_lookup h r n : h !! r = Some n → ThoughtNode.id n ∈ heapIds h.
Proof.
  intros Hr. apply elem_of_list_to_set, list_elem_of_fmap.
  exists n. split; [done|]. by eapply list_elem_of_lookup_2.
Qed.

Lemma seenIds_push_node g st : seenIds (push_node g st) = seenIds st ∪ {[D3Node.id g]}.
Proof.
  unfold seenIds. simpl. rewrite fmap_app, list_to_set_app_L. simpl. set_solver.
Qed.

Lemma seenIds_extends st st' : extends st st' → seenIds st ⊆ seenIds st'.
Proof.
  intros (_ & [k Hk] & _). unfold seenIds. rewrite Hk, fmap_app, list_to_set_app_L.
  set_solver.
Qed.

Lemma unseen_extends st st' : extends st st' → unseen st' ⊆ unseen st.
Proof.
  intros Hext. pose proof (seenIds_extends _ _ Hext) as Hs.
  unfold unseen. rewrite (extends_heap _ _ Hext). set_solver.
Qed.

Lemma find_hasId_None_seen a st :
  find (hasId a) (d3Nodes st) = None → a ∉ seenIds st.
Proof.
  intros Hnone (g & -> & Hin)%elem_of_list_to_set%list_elem_of_fmap.
  by eapply find_hasId_None.
Qed.

(** The number of ids still without a GraphNode once [node] has been pushed,
    plus the levels left below [depth], bounds the fuel a visit needs: a
    structural descent uses up a level, and an alias target is visited only
    when its id has no GraphNode yet. *)
Lemma processNode_terminates m node n depth st :
  heap_closed (heap st) = true →
  heap st !! node = Some n →
  (size (unseen st ∖ {[ThoughtNode.id n]})
     + Z.to_nat (maxVisibleDepth + 1 - depth) ≤ m)%nat →
  ∃ r st', processNode (S m) node depth st = Ok (r, st').
Proof.
  revert node n depth st.
  induction m as [m IH] using lt_wf_ind; intros node n depth st Hclosed Hn Hrank.
  rewrite processNode_S.
  destruct (Z.gtb_spec depth maxVisibleDepth) as [Hd|Hd]; [by eauto|].
  rewrite Hn. cbv zeta. set (d3Node := mkD3Node node n).
  destruct m as [|m]; [lia|].
  assert (Hunseen1 : unseen (push_node d3Node st) = unseen st ∖ {[ThoughtNode.id n]}).
  { unfold unseen. rewrite seenIds_push_node. simpl. set_solver. }
  destruct (forEachSubThought_total (extends (push_node d3Node st))
              (processNode (S m)) d3Node depth (ThoughtNode.subThoughts n)
              (push_node d3Node st)) as (st2 & -> & Hext2); [|done|].
  { intros c s Hc Hs.
    destruct (heap_closed_sub _ _ _ c Hclosed Hn Hc) as [cn Hcn].
    pose proof (extends_heap _ _ Hs) as Hhs. simpl in Hhs.
    destruct (IH m (Nat.lt_succ_diag_r m) c cn (depth + 1) s) as (r & s' & Hv).
    - by rewrite Hhs.
    - by rewrite Hhs.
    - pose proof (subseteq_size _ _ (unseen_extends _ _ Hs)) as Hle.
      rewrite Hunseen1 in Hle.
      assert (Hsub : unseen s ∖ {[ThoughtNode.id cn]} ⊆ unseen s) by set_solver.
      apply subseteq_size in Hsub. lia.
    - exists r, s'. split; [done|]. apply processNode_extends in Hv.
      destruct r; [etrans; [|apply extends_push_link]|]; by etrans. }
  rewrite Outcome_bind_ret.
  destruct (ThoughtNode.aliasNode n) as [alias|] eqn:Ha; [|by eauto].
  destruct (heap_closed_alias _ _ _ _ Hclosed Hn Ha) as [an Han].
  pose proof (extends_heap _ _ Hext2) as Hh2. simpl in Hh2.
  rewrite Hh2, Han.
  destruct (existsb _ _); [by eauto|].
  destruct (find _ _) as [g|] eqn:Hfind; [rewrite Outcome_bind_ret; by eauto|].
  destruct (IH m (Nat.lt_succ_diag_r m) alias an depth st2) as (r & st3 & ->).
  - by rewrite Hh2.
  - by rewrite Hh2.
  - pose proof (subseteq_size _ _ (unseen_extends _ _ Hext2)) as Hle.
    rewrite Hunseen1 in Hle.
    assert (Hin : ThoughtNode.id an ∈ unseen st2).
    { apply elem_of_difference. split.
      - rewrite Hh2. by eapply heapIds_lookup.
      - by apply find_hasId_None_seen. }
    assert (Hsz : (size (unseen st2 ∖ {[ThoughtNode.id an]}) < size (unseen st2))%nat).
    { apply subset_size. set_solver. }
    lia.
  - rewrite Outcome_bind_ret. destruct r; eauto.
Qed.

Lemma forEachRoot_terminates fuel roots st :
  heap_closed (heap st) = true →
  roots_ok (heap st) roots = true →
  (length (heap st) + Z.to_nat (maxVisibleDepth + 1) < fuel)%nat →
  ∃ st', forEachRoot fuel roots st = Ok st'.
Proof.
  intros Hclosed Hroots Hfuel. revert st Hclosed Hroots Hfuel.
  induction roots as [|r rest IH]; intros st Hclosed Hroots Hfuel; simpl; [by eauto|].
  destruct (roots_ok_root _ _ r Hroots) as [n Hn]; [apply list_elem_of_here|].
  destruct fuel as [|m]; [lia|].
  destruct (processNode_terminates m r n 0 st Hclosed Hn) as (g & st1 & Hr).
  { assert (Hle : unseen st ∖ {[ThoughtNode.id n]} ⊆ heapIds (heap st))
      by (unfold unseen; set_solver).
    apply subseteq_size in Hle.
    pose proof (size_list_to_set_le (ThoughtNode.id <$> heap st)) as Hlen.
    rewrite length_fmap in Hlen. unfold heapIds in Hle.
    replace (maxVisibleDepth + 1 - 0) with (maxVisibleDepth + 1) by lia. lia. }
  rewrite Hr. simpl.
  pose proof (extends_heap _ _ (processNode_extends _ _ _ _ _ _ Hr)) as Hh.
  apply IH; rewrite ?Hh; try done.
  unfold roots_ok in *. simpl in Hroots. by apply andb_true_iff in Hroots as [_ ?].
Qed.

(** *** Visits within and beyond the depth bound *)

Lemma processNode_beyond fuel node depth st :
  maxVisibleDepth < depth →
  processNode (S fuel) node depth st = Ok (None, st).
Proof.
  intros Hd. rewrite processNode_S.
  destruct (Z.gtb_spec depth maxVisibleDepth); [done|lia].
Qed.

Lemma forEachSubThought_beyond fuel d3Node depth subs st :
  maxVisibleDepth < depth + 1 →
  forEachSubThought (processNode (S fuel)) d3Node depth subs st = Ok st.
Proof.
  intros Hd. induction subs as [|c rest IH]; [done|].
  rewrite forEachSubThought_cons, processNode_beyond by done.
  by rewrite Outcome_bind_ret.
Qed.

(** A visit within the bound returns the GraphNode it made, which is in the
    node list from then on. *)
Lemma processNode_visible fuel node depth st r st' :
  processNode fuel node depth st = Ok (r, st') →
  depth ≤ maxVisibleDepth →
  ∃ n, heap st !! node = Some n
       ∧ r = Some (mkD3Node node n)
       ∧ mkD3Node node n ∈ d3Nodes st'.
Proof.
  intros Hrun Hd. destruct fuel as [|fuel]; [done|].
  apply processNode_inv in Hrun as [(? & _)|(_ & n & st2 & Hn & -> & Hsubs & Halias)];
    [lia|].
  exists n. repeat split; try done.
  apply forEachSubThought_extends in Hsubs. apply AliasStep_extends in Halias.
  apply (extends_node (push_node (mkD3Node node n) st)); [by etrans|].
  simpl. apply elem_of_app. right. apply list_elem_of_here.
Qed.

Lemma processNode_Some fuel node depth st g st' :
  processNode fuel node depth st = Ok (Some g, st') →
  depth ≤ maxVisibleDepth
  ∧ ∃ n, heap st !! node = Some n ∧ g = mkD3Node node n.
Proof.
  intros Hrun. destruct fuel as [|fuel]; [done|].
  apply processNode_inv in Hrun as [(_ & ? & _)|(Hd & n & st2 & Hn & Hg & _)]; [done|].
  split; [done|]. exists n. split; [done|]. by injection Hg.
Qed.

(** *** Depth truncation *)

Section Truncation.
Variable h : Heap.
Variable rootThoughts : list ref.

Abbreviation reached := (reached maxVisibleDepth h rootThoughts).
Abbreviation within_bound := (within_bound maxVisibleDepth h rootThoughts).

Lemma reached_bounds x d : reached x d → 0 ≤ d ≤ maxVisibleDepth.
Proof. induction 1; lia. Qed.

Lemma within_bound_push_node node n d st :
  reached node d → within_bound st → within_bound (push_node (mkD3Node node n) st).
Proof.
  intros Hr [Hn Hl]. split; [|done].
  intros g [Hg| ->%list_elem_of_singleton]%elem_of_app; [by apply Hn|].
  by exists d.
Qed.

Lemma within_bound_push_alias g g' st :
  within_bound st → within_bound (push_link (aliasLink g g') st).
Proof.
  intros [Hn Hl]. split; [done|].
  intros l [Hin| ->%list_elem_of_singleton]%elem_of_app; [by apply Hl|done].
Qed.

Lemma within_bound_push_child g c cn d st :
  reached c d → 1 ≤ d → within_bound st →
  within_bound (push_link (childLink g (mkD3Node c cn)) st).
Proof.
  intros Hr Hd [Hn Hl]. split; [done|].
  intros l [Hin| ->%list_elem_of_singleton]%elem_of_app; [by apply Hl|].
  intros _. by exists d.
Qed.

Lemma processNode_within fuel node depth st r st' :
  processNode fuel node depth st = Ok (r, st') →
  heap st = h → 0 ≤ depth →
  (depth ≤ maxVisibleDepth → reached node depth) →
  within_bound st → within_bound st'.
Proof.
  revert node depth st r st'.
  induction fuel as [|fuel IH]; intros node depth st r st' Hrun Hh Hd0 Hreach Hst; [done|].
  apply processNode_inv in Hrun as [(_ & _ & ->)|(Hd & n & st2 & Hn & -> & Hsubs & Halias)];
    [done|].
  specialize (Hreach Hd). rewrite Hh in Hn.
  assert (Hst2 : heap st2 = h ∧ within_bound st2).
  { revert Hsubs. apply (forEachSubThought_invariant (λ s, heap s = h ∧ within_bound s)).
    - intros c s r s' Hc [Hhs Hs] Hv.
      pose proof (extends_heap _ _ (processNode_extends _ _ _ _ _ _ Hv)) as Hhs'.
      assert (Hs' : within_bound s').
      { eapply IH; [exact Hv|done|lia| |done].
        intros Hd'. by eapply reached_child. }
      destruct r as [g|]; [|split; congruence].
      apply processNode_Some in Hv as (Hd' & cn & _ & ->).
      split; [simpl; congruence|].
      apply (within_bound_push_child _ _ _ (depth + 1)); [|lia|done].
      by eapply reached_child.
    - split; [done|]. by eapply within_bound_push_node. }
  destruct Hst2 as [Hh2 Hst2].
  eapply AliasStep_case; [exact Halias|..].
  - by intros ->.
  - intros ??? _ _ _ _ ->. by apply within_bound_push_alias.
  - intros alias an r st3 Ha _ _ _ Hv ->.
    assert (within_bound st3).
    { eapply IH; [exact Hv|done|done| |done]. intros _. by eapply reached_alias. }
    destruct r; [by apply within_bound_push_alias|done].
Qed.

Lemma forEachRoot_within fuel roots st st' :
  forEachRoot fuel roots st = Ok st' →
  roots ⊆ rootThoughts → heap st = h →
  within_bound st → within_bound st'.
Proof.
  revert st. induction roots as [|r rest IH]; intros st Hrun Hsub Hh Hst; simpl in Hrun.
  - by injection Hrun as <-.
  - apply Outcome_bind_Ok in Hrun as ([g s] & Hr & Hrest).
    apply (IH s); [done|set_solver| |].
    + by rewrite (extends_heap _ _ (processNode_extends _ _ _ _ _ _ Hr)).
    + eapply processNode_within; [exact Hr|done|done| |done].
      intros Hd. apply reached_root; [set_solver|done].
Qed.

(** With the bound at 0 only alias references lead anywhere. *)
Lemma reached_0_alias x d :
  maxVisibleDepth = 0 → reached x d →
  d = 0 ∧ ∃ r, r ∈ rootThoughts ∧ alias_reach h r x.
Proof.
  intros H0 Hr. induction Hr as [r Hin _|x d n c Hr _ _ _ Hd|x d n a Hr IH Hn Ha].
  - split; [done|]. exists r. split; [done|]. apply rtc_refl.
  - apply reached_bounds in Hr. lia.
  - destruct IH as (-> & r & Hin & Hreach). split; [done|].
    exists r. split; [done|]. eapply rtc_r; [exact Hreach|]. by exists n.
Qed.

End Truncation.

Lemma forEachRoot_visits fuel roots st st' r :
  forEachRoot fuel roots st = Ok st' →
  0 ≤ maxVisibleDepth → r ∈ roots →
  ∃ g, g ∈ d3Nodes st' ∧ D3Node.originalNode g = r.
Proof.
  intros Hrun Hd. revert st Hrun.
  induction roots as [|r' rest IH]; intros st Hrun Hin; [by apply elem_of_nil in Hin|].
  simpl in Hrun. apply Outcome_bind_Ok in Hrun as ([g s] & Hr & Hrest).
  apply elem_of_cons in Hin as [->|Hin]; [|by eapply IH].
  apply processNode_visible in Hr as (n & _ & _ & Hg); [|done].
  exists (mkD3Node r' n). split; [|done].
  by eapply extends_node; [eapply forEachRoot_extends|].
Qed.

(** *** The existing-link check of the alias step *)

(** Once the loop over the children is through, every child within the bound
    has its structural link. *)
Lemma forEachSubThought_child_link fuel d3Node depth subs st st2 c cn :
  forEachSubThought (processNode fuel) d3Node depth subs st = Ok st2 →
  c ∈ subs → depth + 1 ≤ maxVisibleDepth → heap st !! c = Some cn →
  childLink d3Node (mkD3Node c cn) ∈ d3Links st2.
Proof.
  intros Hrun Hc Hd. revert st Hrun.
  induction subs as [|c' rest IH]; intros st Hrun Hcn; [by apply elem_of_nil in Hc|].
  rewrite forEachSubThought_cons in Hrun.
  apply Outcome_bind_Ok in Hrun as ([r s'] & Hv & Hrest).
  pose proof (extends_heap _ _ (processNode_extends _ _ _ _ _ _ Hv)) as Hh.
  apply elem_of_cons in Hc as [->|Hc].
  - apply processNode_visible in Hv as (n & Hn & -> & _); [|done].
    assert (n = cn) as -> by congruence.
    apply forEachSubThought_extends in Hrest.
    eapply extends_link; [exact Hrest|].
    simpl. apply elem_of_app. right. apply list_elem_of_here.
  - destruct r; (eapply IH; [done|exact Hrest|]); simpl; by rewrite Hh.
Qed.

(** *** Counting GraphNodes by id *)

Lemma count_id_push_link a l st : count_id a (push_link l st) = count_id a st.
Proof. done. Qed.

Lemma count_id_push_node_ne a g st :
  D3Node.id g ≠ a → count_id a (push_node g st) = count_id a st.
Proof.
  intros Hne. unfold count_id. simpl.
  rewrite filter_app, length_app, filter_cons_False, filter_nil by done.
  simpl. lia.
Qed.

Lemma count_id_push_node_eq a g st :
  D3Node.id g = a → count_id a (push_node g st) = S (count_id a st).
Proof.
  intros Heq. unfold count_id. simpl.
  rewrite filter_app, length_app, filter_cons_True, filter_nil by done.
  simpl. lia.
Qed.

Lemma count_id_find_None a st :
  find (hasId a) (d3Nodes st) = None → count_id a st = 0%nat.
Proof.
  unfold count_id. induction (d3Nodes st) as [|g ns IH]; [done|].
  simpl. unfold hasId at 1. destruct (String.eqb_spec (D3Node.id g) a); [done|].
  intros Hnone. rewrite filter_cons_False by done. by apply IH.
Qed.

Lemma count_id_elem a g st :
  g ∈ d3Nodes st → D3Node.id g = a → (1 ≤ count_id a st)%nat.
Proof.
  intros Hin Hid. unfold count_id.
  assert (Hf : g ∈ filter (λ g, D3Node.id g = a) (d3Nodes st))
    by (by apply list_elem_of_filter).
  destruct (filter _ _); [by apply elem_of_nil in Hf|simpl; lia].
Qed.

Lemma well_formed_push_node h node n st :
  well_formed h st → h !! node = Some n →
  well_formed h (push_node (mkD3Node node n) st).
Proof.
  intros (Hh & Hn & Hl) Hnode. split; [done|]. split.
  - intros g [Hg| ->%list_elem_of_singleton]%elem_of_app; [by apply Hn|].
    by exists n.
  - intros l Hin. destruct (Hl l Hin) as [Hs Ht].
    split; simpl; apply elem_of_app; by left.
Qed.

Lemma well_formed_push_link h l st :
  well_formed h st →
  D3Link.source l ∈ d3Nodes st → D3Link.target l ∈ d3Nodes st →
  well_formed h (push_link l st).
Proof.
  intros (Hh & Hn & Hl) Hs Ht. split; [done|]. split; [done|].
  intros l' [Hin| ->%list_elem_of_singleton]%elem_of_app; [by apply Hl|done].
Qed.

Lemma well_formed_empty h : well_formed h {| heap := h; d3Nodes := []; d3Links := [] |}.
Proof. split; [done|]. split; intros x Hx; by apply elem_of_nil in Hx. Qed.

(** *** An alias target that nothing else mentions *)

Lemma descends_target h x d y e :
  descends maxVisibleDepth h x d y e →
  y = x ∨ ∃ p pn, h !! p = Some pn ∧ y ∈ ThoughtNode.subThoughts pn.
Proof.
  induction 1 as [|x d n c y e _ Hn Hc _ IH]; [by left|].
  right. destruct IH as [->|IH]; [by exists x, n|done].
Qed.

Lemma descends_bound h x d y e : descends maxVisibleDepth h x d y e → d ≤ maxVisibleDepth.
Proof. by destruct 1. Qed.

Section AliasCompleteness.
Variable h : Heap.
Variables A B : ref.
Variables an bn : ThoughtNode.t.
Hypothesis Hunique : NoDup (ThoughtNode.id <$> h).
Hypothesis HA : h !! A = Some an.
Hypothesis HB : h !! B = Some bn.
Hypothesis HAB : A ≠ B.
Hypothesis Halias : ThoughtNode.aliasNode an = Some B.
Hypothesis Hnochild :
  ∀ x xn, h !! x = Some xn → B ∉ ThoughtNode.subThoughts xn.
Hypothesis Honly :
  ∀ x xn, h !! x = Some xn → ThoughtNode.aliasNode xn = Some B → x = A.

Abbreviation ida := (ThoughtNode.id an).
Abbreviation idb := (ThoughtNode.id bn).
Abbreviation theLink := (aliasLink (mkD3Node A an) (mkD3Node B bn)).
Abbreviation between_visits := (between_visits h A B an bn).
Abbreviation visit_spec := (visit_spec maxVisibleDepth h A B an bn).

Lemma ids_inj x y xn yn :
  h !! x = Some xn → h !! y = Some yn →
  ThoughtNode.id xn = ThoughtNode.id yn → x = y.
Proof.
  intros Hx Hy Hid.
  eapply (NoDup_lookup _ x y _ Hunique); rewrite list_lookup_fmap.
  - by rewrite Hx.
  - rewrite Hy. simpl. by rewrite Hid.
Qed.

Lemma well_formed_node_id st g y yn :
  well_formed h st → g ∈ d3Nodes st → h !! y = Some yn →
  D3Node.id g = ThoughtNode.id yn → g = mkD3Node y yn.
Proof.
  intros (_ & Hn & _) Hg Hy Hid. destruct (Hn g Hg) as (n & Hlook & Heq).
  rewrite Heq in Hid. simpl in Hid.
  assert (D3Node.originalNode g = y) as Hgy by (by eapply ids_inj).
  rewrite Hgy in *. by assert (n = yn) as -> by congruence.
Qed.

Lemma joins_objects x xn y yn flag :
  h !! x = Some xn → h !! y = Some yn →
  joins ida idb
    {| D3Link.source := mkD3Node x xn; D3Link.target := mkD3Node y yn;
       D3Link.isAlias := flag |} = true →
  (x = A ∧ y = B) ∨ (x = B ∧ y = A).
Proof.
  intros Hx Hy [[Hs Ht]|[Ht Hs]]%joins_spec; simpl in *.
  - left. split; by eapply ids_inj.
  - right. split; by eapply ids_inj.
Qed.

Lemma joined_push x xn y yn flag st :
  (joined ida idb st → theLink ∈ d3Links st) →
  h !! x = Some xn → h !! y = Some yn →
  ¬ (x = B ∧ y = A) →
  (x = A → y = B → flag = true) →
  joined ida idb
    (push_link {| D3Link.source := mkD3Node x xn; D3Link.target := mkD3Node y yn;
                  D3Link.isAlias := flag |} st) →
  theLink ∈ d3Links
    (push_link {| D3Link.source := mkD3Node x xn; D3Link.target := mkD3Node y yn;
                  D3Link.isAlias := flag |} st).
Proof.
  intros HL Hx Hy Hno Hflag (l & Hin & Hj). simpl in *.
  apply elem_of_app in Hin as [Hin| ->%list_elem_of_singleton].
  - apply elem_of_app. left. apply HL. by exists l.
  - apply joins_objects in Hj as [[-> ->]|[-> ->]]; [|tauto|done|done].
    rewrite (Hflag eq_refl eq_refl).
    assert (xn = an) as -> by congruence. assert (yn = bn) as -> by congruence.
    apply elem_of_app. right. apply list_elem_of_here.
Qed.

Lemma loop_spec fuel X xn d subs st st2 :
  visit_spec fuel →
  forEachSubThought (processNode fuel) (mkD3Node X xn) d subs st = Ok st2 →
  h !! X = Some xn → mkD3Node X xn ∈ d3Nodes st →
  (∀ c, c ∈ subs → c ≠ B) →
  between_visits st →
  between_visits st2
  ∧ ∀ c e, c ∈ subs → descends maxVisibleDepth h c (d + 1) A e →
      theLink ∈ d3Links st2.
Proof.
  intros Hvisit Hrun HX. revert st Hrun.
  induction subs as [|c rest IH]; intros st Hrun HmkX HnoB Hst.
  { injection Hrun as <-. split; [done|]. intros c e Hc. by apply elem_of_nil in Hc. }
  rewrite forEachSubThought_cons in Hrun.
  apply Outcome_bind_Ok in Hrun as ([r s'] & Hv & Hrest).
  assert (HcB : c ≠ B) by (apply HnoB, list_elem_of_here).
  pose proof (processNode_extends _ _ _ _ _ _ Hv) as Hext.
  destruct (Hvisit _ _ _ _ _ Hv Hst ltac:(done)) as (Hwf' & Hcnt' & Hrest').
  destruct (Hrest' HcB) as [HL' Hpost']. clear Hrest'.
  assert (Hstep : ∃ s'',
             forEachSubThought (processNode fuel) (mkD3Node X xn) d rest s'' = Ok st2
             ∧ extends s' s'' ∧ between_visits s'').
  { destruct r as [g|]; [|by exists s'].
    eexists. split; [exact Hrest|]. split; [apply extends_push_link|].
    pose proof Hv as Hv'.
    apply processNode_Some in Hv as (Hd & cn & Hcn & ->).
    apply processNode_visible in Hv' as (cn' & Hcn' & _ & Hin); [|done].
    assert (cn' = cn) as -> by congruence.
    destruct Hst as ((Hh & _) & _). rewrite Hh in Hcn.
    split; [|split].
    - apply well_formed_push_link; [done| |done]. by eapply extends_node.
    - by rewrite count_id_push_link.
    - destruct (decide (X = B ∧ c = A)) as [[-> ->]|Hno].
      + intros _. simpl. apply elem_of_app. left.
        apply Hpost' with (e := d + 1). by apply descends_here.
      + apply joined_push; try done; by intros _ ->. }
  destruct Hstep as (s'' & Hrest'' & Hext'' & Hst'').
  destruct (IH s'' Hrest'') as [Hst2 Hposts]; try done.
  { eapply extends_node; [|exact HmkX]. by etrans. }
  { intros c' Hc'. apply HnoB. by apply list_elem_of_further. }
  split; [done|].
  intros c' e [->|Hc']%elem_of_cons Hdesc; [|by eapply Hposts].
  eapply extends_link; [|by eapply Hpost'].
  etrans; [exact Hext''|]. by eapply forEachSubThought_extends.
Qed.

Lemma visit_spec_all fuel : visit_spec fuel.
Proof.
  induction fuel as [|fuel IH]; intros X d st r st' Hrun Hst HcntB; [done|].
  destruct Hst as (Hwf & Hcnt & HL).
  pose proof Hwf as (Hh & _ & _).
  apply processNode_inv in Hrun
    as [(Hd & _ & ->)|(Hd & n & st2 & Hn & -> & Hsubs & Hstep)].
  { split; [done|]. split; [done|]. intros _. split; [done|].
    intros e Hdesc%descends_bound. lia. }
  rewrite Hh in Hn.
  assert (Hst1 : between_visits (push_node (mkD3Node X n) st)).
  { split; [by apply well_formed_push_node|]. split; [|done].
    destruct (decide (X = B)) as [->|HXB].
    - rewrite count_id_push_node_eq, HcntB; [done|done|]. simpl. congruence.
    - rewrite count_id_push_node_ne; [done|]. simpl.
      intros Hid. apply HXB. by eapply ids_inj. }
  destruct (loop_spec fuel X n d _ _ _ IH Hsubs Hn) as [Hst2 Hposts]; try done.
  { simpl. apply elem_of_app. right. apply list_elem_of_here. }
  { intros c Hc ->. by eapply Hnochild. }
  destruct Hst2 as (Hwf2 & Hcnt2 & HL2).
  pose proof Hwf2 as (Hh2 & _ & _).
  assert (HmkX2 : mkD3Node X n ∈ d3Nodes st2).
  { eapply extends_node; [by eapply forEachSubThought_extends|].
    simpl. apply elem_of_app. right. apply list_elem_of_here. }
  assert (Hchildren : ∀ e, descends maxVisibleDepth h X d A e →
                        X = A ∨ theLink ∈ d3Links st2).
  { intros e Hdesc. inversion Hdesc as [|? ? n' c ? ? _ Hn' Hc Hdesc']; subst; [by left|].
    right. assert (n' = n) as -> by congruence. by eapply Hposts. }
  destruct Hstep as [Hnone|alias tn Ha Htn Hex|alias tn g Ha Htn Hex Hfind
                    |alias tn g st3 Ha Htn Hex Hfind Hv|alias tn st3 Ha Htn Hex Hfind Hv].
  - (* the node has no alias *)
    split; [done|]. split; [done|]. intros _. split; [done|].
    intros e [->|Hin]%Hchildren; [congruence|done].
  - (* a link joins the two ids already *)
    split; [done|]. split; [done|]. intros _. split; [done|].
    intros e [->|Hin]%Hchildren; [|done].
    assert (n = an) as -> by congruence.
    assert (alias = B) as -> by congruence.
    rewrite Hh2 in Htn. assert (tn = bn) as -> by congruence.
    apply HL2. apply existsb_exists in Hex as (l & Hl%list_elem_of_In & Hj).
    by exists l.
  - (* the target has a GraphNode *)
    rewrite Hh2 in Htn.
    apply find_hasId_Some in Hfind as [Hg Hid].
    pose proof (well_formed_node_id _ _ _ _ Hwf2 Hg Htn Hid) as ->.
    split; [by apply well_formed_push_link|]. split; [done|].
    intros HXB. split.
    + apply joined_push; try done. tauto.
    + intros e [->|Hin]%Hchildren; simpl; apply elem_of_app; [right|by left].
      assert (n = an) as -> by congruence.
      assert (alias = B) as -> by congruence.
      assert (tn = bn) as -> by congruence.
      apply list_elem_of_here.
  - (* the target is visited now *)
    rewrite Hh2 in Htn.
    pose proof (processNode_extends _ _ _ _ _ _ Hv) as Hext3.
    pose proof Hv as Hv'.
    apply processNode_Some in Hv' as (_ & tn' & Htn' & ->).
    rewrite Hh2 in Htn'. assert (tn' = tn) as -> by congruence.
    pose proof Hv as Hv'.
    apply processNode_visible in Hv' as (tn' & Htn'' & _ & Hg3); [|done].
    rewrite Hh2 in Htn''. assert (tn' = tn) as -> by congruence.
    destruct (IH _ _ _ _ _ Hv) as (Hwf3 & Hcnt3 & Hrest3); [done| |].
    { intros ->. assert (tn = bn) as -> by congruence.
      by apply count_id_find_None. }
    split; [apply well_formed_push_link; [done| |done]; by eapply extends_node|].
    split; [done|].
    intros HXB. destruct (decide (alias = B)) as [->|HtB].
    + assert (X = A) as -> by (by eapply Honly).
      assert (n = an) as -> by congruence.
      assert (tn = bn) as -> by congruence.
      assert (Hin : theLink ∈ d3Links (push_link theLink st3)).
      { simpl. apply elem_of_app. right. apply list_elem_of_here. }
      split; [done|]. by intros e _.
    + destruct (Hrest3 HtB) as [HL3 _]. split.
      * apply joined_push; try done. tauto.
      * intros e [->|Hin]%Hchildren; [congruence|].
        simpl. apply elem_of_app. left. by eapply extends_link.
  - (* a visit within the bound returns its GraphNode *)
    apply processNode_visible in Hv as (? & _ & [=] & _). done.
Qed.

Lemma roots_spec fuel roots st st' :
  forEachRoot fuel roots st = Ok st' →
  B ∉ roots → between_visits st →
  between_visits st'
  ∧ ∀ r e, r ∈ roots → descends maxVisibleDepth h r 0 A e → theLink ∈ d3Links st'.
Proof.
  revert st. induction roots as [|r rest IH]; intros st Hrun HB' Hst; simpl in Hrun.
  { injection Hrun as <-. split; [done|]. intros r e Hr. by apply elem_of_nil in Hr. }
  apply Outcome_bind_Ok in Hrun as ([g s] & Hr & Hrest).
  assert (HrB : r ≠ B) by (intros ->; apply HB', list_elem_of_here).
  destruct (visit_spec_all fuel r 0 st g s Hr Hst) as (Hwf & Hcnt & Hmore); [done|].
  destruct (Hmore HrB) as [HL Hpost].
  destruct (IH s Hrest) as [Hst' Hposts]; try done.
  { intros Hin. apply HB'. by apply list_elem_of_further. }
  split; [done|].
  intros r' e [->|Hr']%elem_of_cons Hdesc; [|by eapply Hposts].
  eapply extends_link; [by eapply forEachRoot_extends|by eapply Hpost].
Qed.

Lemma alias_target_once fuel roots st :
  flattenWith fuel h roots = Ok st →
  B ∉ roots → visible maxVisibleDepth h roots A →
  count_id idb st = 1%nat
  ∧ mkD3Node B bn ∈ d3Nodes st
  ∧ theLink ∈ d3Links st.
Proof.
  intros Hrun HB' (r & e & Hr & Hdesc).
  destruct (roots_spec _ _ _ _ Hrun HB') as [(Hwf & Hcnt & _) Hposts].
  { split; [apply well_formed_empty|]. split; [unfold count_id; simpl; lia|].
    intros (l & Hl & _). by apply elem_of_nil in Hl. }
  pose proof (Hposts r e Hr Hdesc) as Hlink.
  destruct Hwf as (_ & _ & Hends). destruct (Hends _ Hlink) as [_ Hnode].
  simpl in Hnode. split; [|done].
  pose proof (count_id_elem idb _ st Hnode eq_refl). lia.
Qed.

End AliasCompleteness.

End FlatteningFacts.

(** ** The model: createSelfReference *)

(** The store after [this.createSelfReference()] is the store before it with
    one object appended, and the call returns the reference of that object. *)
Lemma createSelfReference_alloc now (h : Heap) this n :
  h !! this = Some n →
  ∃ s,
    createSelfReference now h this = Some (length h, h ++ [s])
    ∧ ThoughtNode.id s = ThoughtNode.id n +:+ "-self-ref"
    ∧ ThoughtNode.type s = RECURSIVE_REFERENCE
    ∧ ThoughtNode.aliasNode s = Some this
    ∧ ThoughtNode.metadata s =
        {| createdAt := createdAt (ThoughtNode.metadata n);
           evaluationStatus := evaluationStatus (ThoughtNode.metadata n);
           recursionDepth :=
             roundToDouble (recursionDepth (ThoughtNode.metadata n) + 1);
           memoizationKey := memoizationKey (ThoughtNode.metadata n) |}.
Proof.
  intros Hn. unfold createSelfReference, alloc. rewrite Hn. simpl.
  eexists. split; [reflexivity|]. done.
Qed.

Lemma lookup_snoc_new (h : Heap) s : (h ++ [s]) !! length h = Some s.
Proof. by rewrite lookup_app_r, Nat.sub_diag. Qed.

Lemma lookup_snoc_old (h : Heap) s x : x ≠ length h → (h ++ [s]) !! x = h !! x.
Proof.
  intros Hx. destruct (decide (x < length h)%nat) as [Hl|Hl].
  - by rewrite lookup_app_l.
  - rewrite !lookup_ge_None_2; [done|lia|]. rewrite length_app. simpl. lia.
Qed.

(** Up to [2^53] in magnitude the rounding changes nothing. *)
Lemma roundToDouble_exact x : - 2 ^ 53 ≤ x ≤ 2 ^ 53 → roundToDouble x = x.
Proof.
  intros Hx. unfold roundToDouble.
  destruct (Z.leb_spec (Z.abs x) (2 ^ 53)) as [_|Habs]; [done|lia].
Qed.

Lemma toNumber_exact x : - 2 ^ 53 ≤ x ≤ 2 ^ 53 → toNumber x = Finite x.
Proof.
  intros Hx. unfold toNumber. rewrite roundToDouble_exact by done.
  assert (2 ^ 53 < 2 ^ 1024) by (apply Z.pow_lt_mono_r; lia).
  destruct (Z.leb_spec (2 ^ 1024) x); [lia|].
  destruct (Z.leb_spec x (- 2 ^ 1024)); [lia|done].
Qed.

(** C8: [n.createSelfReference()] returns a reference to a newly allocated
    node, different from [n] and not an object before the call, whose type is
    recursive-reference and whose [aliasNode] is [n]; when the
    [recursionDepth] of [n] is an integer from [-2^53] to [2^53 - 1], the
    [metadata.recursionDepth] of the new node is that of [n] plus one; every
    object that existed before the call, [n] included, is unchanged. *)
Theorem C8_createSelfReference now (h : Heap) this n :
  h !! this = Some n →
  ∃ r h' s,
    createSelfReference now h this = Some (r, h')
    ∧ r ≠ this
    ∧ h !! r = None
    ∧ h' !! r = Some s
    ∧ ThoughtNode.type s = RECURSIVE_REFERENCE
    ∧ ThoughtNode.aliasNode s = Some this
    ∧ (- 2 ^ 53 ≤ recursionDepth (ThoughtNode.metadata n) < 2 ^ 53 →
       recursionDepth (ThoughtNode.metadata s)
       = recursionDepth (ThoughtNode.metadata n) + 1)
    ∧ h' !! this = Some n
    ∧ ∀ x, x ≠ r → h' !! x = h !! x.
Proof.
  intros Hn.
  destruct (createSelfReference_alloc now h this n Hn)
    as (s & Hcall & _ & Htype & Halias & Hmeta).
  pose proof (lookup_lt_Some _ _ _ Hn) as Hlt.
  exists (length h), (h ++ [s]), s.
  split; [done|]. split; [lia|]. split; [by apply lookup_ge_None_2|].
  split; [apply lookup_snoc_new|]. split; [done|]. split; [done|].
  split; [intros Hbound; rewrite Hmeta; simpl; apply roundToDouble_exact; lia|].
  split; [rewrite lookup_snoc_old; [done|lia]|].
  intros x Hx. by apply lookup_snoc_old.
Qed.

Lemma C8_createSelfReference_witness :
  ∃ r h' s,
    createSelfReference 0 [thoughtAtDepth "p" 7] 0%nat = Some (r, h')
    ∧ r ≠ 0%nat
    ∧ [thoughtAtDepth "p" 7] !! r = None
    ∧ h' !! r = Some s
    ∧ ThoughtNode.type s = RECURSIVE_REFERENCE
    ∧ ThoughtNode.aliasNode s = Some 0%nat
    ∧ - 2 ^ 53 ≤ 7 < 2 ^ 53
    ∧ recursionDepth (ThoughtNode.metadata s) = 7 + 1
    ∧ h' !! 0%nat = Some (thoughtAtDepth "p" 7)
    ∧ ∀ x, x ≠ r → h' !! x = [thoughtAtDepth "p" 7] !! x.
Proof.
  destruct (C8_createSelfReference 0 [thoughtAtDepth "p" 7] 0%nat
              (thoughtAtDepth "p" 7) eq_refl)
    as (r & h' & s & Hcall & Hr & Hnew & Hs & Htype & Halias & Hdepth & Hthis & Hold).
  assert (Hbound : - 2 ^ 53 ≤ 7 < 2 ^ 53) by lia.
  exists r, h', s.
  split; [exact Hcall|]. split; [exact Hr|]. split; [exact Hnew|].
  split; [exact Hs|]. split; [exact Htype|]. split; [exact Halias|].
  split; [exact Hbound|]. split; [exact (Hdepth Hbound)|].
  split; [exact Hthis|exact Hold].
Defined.

(** C8, as the specification words it, fails at the top of the exactly
    represented integers: on a node whose [recursionDepth] is [2^53], the sum
    [2^53 + 1] is no double and rounds back to [2^53], so the self-reference
    carries the [recursionDepth] of the node itself, not that plus one. *)
Lemma C8_counterexample :
  ∃ r h' s,
    createSelfReference 0 [thoughtAtDepth "p" (2 ^ 53)] 0%nat = Some (r, h')
    ∧ h' !! r = Some s
    ∧ recursionDepth (ThoughtNode.metadata (thoughtAtDepth "p" (2 ^ 53))) = 2 ^ 53
    ∧ recursionDepth (ThoughtNode.metadata s) = 2 ^ 53
    ∧ recursionDepth (ThoughtNode.metadata s)
      ≠ recursionDepth (ThoughtNode.metadata (thoughtAtDepth "p" (2 ^ 53))) + 1.
Proof.
  eexists _, _, _. split; [reflexivity|]. split; [reflexivity|].
  split; [reflexivity|]. split; [reflexivity|]. by vm_compute.
Qed.

(** C10: the node returned by [n.createSelfReference()] has the id of [n]
    followed by "-self-ref" and copies [createdAt], [evaluationStatus] and
    [memoizationKey] from the metadata of [n]; two calls on the same node
    give two different nodes that carry the same id, so the ids of the store
    are no longer distinct. *)
Theorem C10_selfReference_ids now now' (h : Heap) this n :
  h !! this = Some n →
  ∃ r1 h1 r2 h2 s1 s2,
    createSelfReference now h this = Some (r1, h1)
    ∧ createSelfReference now' h1 this = Some (r2, h2)
    ∧ r1 ≠ r2
    ∧ h2 !! r1 = Some s1 ∧ h2 !! r2 = Some s2
    ∧ ThoughtNode.id s1 = ThoughtNode.id n +:+ "-self-ref"
    ∧ ThoughtNode.id s2 = ThoughtNode.id n +:+ "-self-ref"
    ∧ createdAt (ThoughtNode.metadata s1) = createdAt (ThoughtNode.metadata n)
    ∧ evaluationStatus (ThoughtNode.metadata s1)
      = evaluationStatus (ThoughtNode.metadata n)
    ∧ memoizationKey (ThoughtNode.metadata s1)
      = memoizationKey (ThoughtNode.metadata n)
    ∧ ¬ NoDup (ThoughtNode.id <$> h2).
Proof.
  intros Hn.
  destruct (createSelfReference_alloc now h this n Hn)
    as (s1 & Hcall1 & Hid1 & _ & _ & Hmeta1).
  pose proof (lookup_lt_Some _ _ _ Hn) as Hlt.
  assert (Hn1 : (h ++ [s1]) !! this = Some n)
    by (rewrite lookup_snoc_old; [done|lia]).
  destruct (createSelfReference_alloc now' (h ++ [s1]) this n Hn1)
    as (s2 & Hcall2 & Hid2 & _ & _ & _).
  assert (Hlen : length (h ++ [s1]) = S (length h))
    by (rewrite length_app; simpl; lia).
  assert (Hs1 : (h ++ [s1] ++ [s2]) !! length h = Some s1).
  { rewrite app_assoc, lookup_snoc_old by lia. apply lookup_snoc_new. }
  assert (Hs2 : (h ++ [s1] ++ [s2]) !! S (length h) = Some s2).
  { rewrite app_assoc, <-Hlen. apply lookup_snoc_new. }
  exists (length h), (h ++ [s1]), (S (length h)), (h ++ [s1] ++ [s2]), s1, s2.
  split; [done|]. split; [by rewrite Hcall2, Hlen, <-app_assoc|].
  split; [lia|]. split; [done|]. split; [done|]. split; [done|]. split; [done|].
  rewrite Hmeta1. split; [done|]. split; [done|]. split; [done|].
  intros Hnd.
  assert (length h = S (length h)); [|lia].
  eapply (NoDup_lookup _ _ _ _ Hnd); rewrite list_lookup_fmap.
  - by rewrite Hs1.
  - rewrite Hs2. simpl. by rewrite Hid2, <-Hid1.
Qed.

Lemma C10_selfReference_ids_witness :
  ∃ r1 h1 r2 h2 s1 s2,
    createSelfReference 0 [thought "p" [] None] 0%nat = Some (r1, h1)
    ∧ createSelfReference 1 h1 0%nat = Some (r2, h2)
    ∧ r1 ≠ r2
    ∧ h2 !! r1 = Some s1 ∧ h2 !! r2 = Some s2
    ∧ ThoughtNode.id s1 = "p" +:+ "-self-ref"
    ∧ ThoughtNode.id s2 = "p" +:+ "-self-ref"
    ∧ createdAt (ThoughtNode.metadata s1) = 0
    ∧ evaluationStatus (ThoughtNode.metadata s1) = PENDING
    ∧ memoizationKey (ThoughtNode.metadata s1) = None
    ∧ ¬ NoDup (ThoughtNode.id <$> h2).
Proof.
  apply (C10_selfReference_ids 0 1 [thought "p" [] None] 0%nat (thought "p" [] None)).
  reflexivity.
Defined.

(** ** The flattening pass: termination, frame, determinism *)

Lemma flatten_terminates maxVisibleDepth (h : Heap) (rootThoughts : list ref) :
  heap_closed h = true →
  roots_ok h rootThoughts = true →
  ∃ st,
    flatten maxVisibleDepth h rootThoughts = Ok st
    ∧ ∀ fuel, (enoughFuel maxVisibleDepth h ≤ fuel)%nat →
        flattenWith maxVisibleDepth fuel h rootThoughts = Ok st.
Proof.
  intros Hclosed Hroots.
  destruct (forEachRoot_terminates maxVisibleDepth (enoughFuel maxVisibleDepth h)
              rootThoughts {| heap := h; d3Nodes := []; d3Links := [] |})
    as [st Hst]; try done.
  { unfold enoughFuel. simpl. lia. }
  exists st. split; [done|].
  intros fuel Hfuel. by eapply forEachRoot_fuel_mono.
Qed.

(** C3: on every finite store whose references are all objects, for every
    list of roots and every integer depth bound, the flattening pass
    completes with a node list and a link list, whatever the alias
    references are (to ancestors, to themselves, in cycles).  Fuel counts
    nested calls, so the calls never nest deeper than [enoughFuel]: the
    number of objects plus the levels of the bound; any larger amount of fuel
    gives the same result.  Acyclicity of [subThoughts] is not needed for an
    integer bound: structural descent stops below the bound, and an alias
    target is visited only while no GraphNode carries its id. *)
Theorem C3_flatten_terminates maxVisibleDepth (h : Heap) (rootThoughts : list ref) :
  heap_closed h = true →
  roots_ok h rootThoughts = true →
  ∃ st,
    flatten maxVisibleDepth h rootThoughts = Ok st
    ∧ ∀ fuel, (enoughFuel maxVisibleDepth h ≤ fuel)%nat →
        flattenWith maxVisibleDepth fuel h rootThoughts = Ok st.
Proof. apply flatten_terminates. Qed.

Lemma C3_flatten_terminates_witness :
  ∃ st,
    flatten 5 mutualAliasForest [0%nat; 1%nat] = Ok st
    ∧ ∀ fuel, (enoughFuel 5 mutualAliasForest ≤ fuel)%nat →
        flattenWith 5 fuel mutualAliasForest [0%nat; 1%nat] = Ok st.
Proof.
  apply (C3_flatten_terminates 5 mutualAliasForest [0%nat; 1%nat]); reflexivity.
Defined.

(** C6: the flattening pass leaves every ThoughtNode object as it was: the
    store of objects after the pass is the store before it, field by field. *)
Theorem C6_flatten_pure maxVisibleDepth fuel (h : Heap) (rootThoughts : list ref) st :
  flattenWith maxVisibleDepth fuel h rootThoughts = Ok st →
  heap st = h ∧ ∀ r, heap st !! r = h !! r.
Proof.
  intros Hrun%forEachRoot_extends%extends_heap. simpl in Hrun.
  split; [done|]. intros r. by rewrite Hrun.
Qed.

Lemma C6_flatten_pure_witness :
  ∃ st, flattenWith 5 8 siblingAliasForest [0%nat] = Ok st
    ∧ heap st = siblingAliasForest
    ∧ ∀ r, heap st !! r = siblingAliasForest !! r.
Proof.
  eexists. split; [reflexivity|].
  apply (C6_flatten_pure 5 8 siblingAliasForest [0%nat]). reflexivity.
Defined.

(** *** Determinism

    No rule of the runs leaves a choice: of two runs of the same call from
    the same arrays, the second ends as the first. *)
Lemma runs_functional maxVisibleDepth :
  (∀ node depth st r st',
     Visit maxVisibleDepth node depth st r st' →
     ∀ r2 st2, Visit maxVisibleDepth node depth st r2 st2 → r2 = r ∧ st2 = st')
  ∧ (∀ d3Node depth subs st st',
       SubThoughts maxVisibleDepth d3Node depth subs st st' →
       ∀ st2, SubThoughts maxVisibleDepth d3Node depth subs st st2 → st2 = st')
  ∧ (∀ n d3Node depth st st',
       AliasResolution maxVisibleDepth n d3Node depth st st' →
       ∀ st2, AliasResolution maxVisibleDepth n d3Node depth st st2 → st2 = st').
Proof.
  apply runs_ind.
  - intros node depth st Hd r2 st2 Hrun.
    inversion Hrun; subst; [done|lia].
  - intros node depth st n st2 st' Hd Hn _ IHsubs _ IHalias r2 st2' Hrun.
    inversion Hrun as [|? ? ? n' st2'' ? Hd' Hn' Hsubs' Halias']; subst; [lia|].
    rewrite Hn in Hn'. injection Hn' as <-.
    apply IHsubs in Hsubs' as ->. apply IHalias in Halias' as ->. done.
  - intros d3Node depth st st2 Hrun. by inversion Hrun.
  - intros d3Node depth c rest st g st' st2 _ IHvisit _ IHrest st2' Hrun.
    inversion Hrun as [|? ? ? ? ? g' st'' ? Hv Hr|? ? ? ? ? st'' ? Hv Hr]; subst.
    + apply IHvisit in Hv as [[= ->] ->]. by apply IHrest.
    + by apply IHvisit in Hv as [? _].
  - intros d3Node depth c rest st st' st2 _ IHvisit _ IHrest st2' Hrun.
    inversion Hrun as [|? ? ? ? ? g' st'' ? Hv Hr|? ? ? ? ? st'' ? Hv Hr]; subst.
    + by apply IHvisit in Hv as [? _].
    + apply IHvisit in Hv as [_ ->]. by apply IHrest.
  - intros n d3Node depth st Ha st2 Hrun.
    inversion Hrun; subst; congruence.
  - intros n d3Node depth st alias an Ha Han Hex st2 Hrun.
    inversion Hrun; subst; congruence.
  - intros n d3Node depth st alias an g Ha Han Hex Hfind st2 Hrun.
    inversion Hrun; subst; congruence.
  - intros n d3Node depth st alias an g st3 Ha Han Hex Hfind _ IHvisit st2 Hrun.
    inversion Hrun as [| | |? ? ? ? alias' an' g' st3' Ha' Han' Hex' Hfind' Hv
                       |? ? ? ? alias' an' st3' Ha' Han' Hex' Hfind' Hv];
      subst; try congruence.
    + rewrite Ha in Ha'. injection Ha' as <-.
      by apply IHvisit in Hv as [[= ->] ->].
    + rewrite Ha in Ha'. injection Ha' as <-.
      by apply IHvisit in Hv as [? _].
  - intros n d3Node depth st alias an st3 Ha Han Hex Hfind _ IHvisit st2 Hrun.
    inversion Hrun as [| | |? ? ? ? alias' an' g' st3' Ha' Han' Hex' Hfind' Hv
                       |? ? ? ? alias' an' st3' Ha' Han' Hex' Hfind' Hv];
      subst; try congruence.
    + rewrite Ha in Ha'. injection Ha' as <-.
      by apply IHvisit in Hv as [? _].
    + rewrite Ha in Ha'. injection Ha' as <-.
      by apply IHvisit in Hv as [_ ->].
Qed.

Lemma Roots_functional maxVisibleDepth rootThoughts st st1 st2 :
  Roots maxVisibleDepth rootThoughts st st1 →
  Roots maxVisibleDepth rootThoughts st st2 →
  st2 = st1.
Proof.
  intros Hrun. revert st2.
  induction Hrun as [st|r rest st g st' st1 Hv _ IH]; intros st2 Hrun2.
  - by inversion Hrun2.
  - inversion Hrun2 as [|? ? ? g' st'' ? Hv' Hrest']; subst.
    destruct (runs_functional maxVisibleDepth) as (Hvisit & _ & _).
    apply (Hvisit _ _ _ _ _ Hv) in Hv' as [_ ->]. by apply IH.
Qed.

(** A completed call of the function is a run. *)
Lemma forEachSubThought_run maxVisibleDepth
    (visit : ref → Z → Store → Outcome (option D3Node.t * Store))
    d3Node depth subs :
  (∀ c d st r st', visit c d st = Ok (r, st') → Visit maxVisibleDepth c d st r st') →
  ∀ st st2,
    forEachSubThought visit d3Node depth subs st = Ok st2 →
    SubThoughts maxVisibleDepth d3Node depth subs st st2.
Proof.
  intros Hvisit. induction subs as [|c rest IH]; intros st st2 Hrun.
  - injection Hrun as <-. constructor.
  - rewrite forEachSubThought_cons in Hrun.
    apply Outcome_bind_Ok in Hrun as ([[g|] st'] & Hv & Hrest).
    + eapply SubThoughts_linked; [by apply Hvisit|by apply IH].
    + eapply SubThoughts_omitted; [by apply Hvisit|by apply IH].
Qed.

Lemma processNode_run maxVisibleDepth fuel node depth st r st' :
  processNode maxVisibleDepth fuel node depth st = Ok (r, st') →
  Visit maxVisibleDepth node depth st r st'.
Proof.
  revert node depth st r st'.
  induction fuel as [|fuel IH]; intros node depth st r st' Hrun; [done|].
  apply processNode_inv in Hrun
    as [(Hd & -> & ->)|(Hd & n & st2 & Hn & -> & Hsubs & Hstep)].
  { by constructor. }
  eapply Visit_within; [done|done| |].
  - eapply forEachSubThought_run; [|done]. apply IH.
  - destruct Hstep.
    + by constructor.
    + by eapply AliasResolution_joined.
    + by eapply AliasResolution_found.
    + eapply AliasResolution_visited; try done. by apply IH.
    + eapply AliasResolution_omitted; try done. by apply IH.
Qed.

Lemma flattenWith_run maxVisibleDepth fuel (h : Heap) (rootThoughts : list ref) st :
  flattenWith maxVisibleDepth fuel h rootThoughts = Ok st →
  Flattens maxVisibleDepth h rootThoughts st.
Proof.
  unfold flattenWith, Flattens.
  generalize {| heap := h; d3Nodes := []; d3Links := [] |}.
  induction rootThoughts as [|r rest IH]; intros st0 Hrun.
  - injection Hrun as <-. constructor.
  - simpl in Hrun. apply Outcome_bind_Ok in Hrun as ([g st'] & Hv & Hrest).
    econstructor; [by eapply processNode_run|by apply IH].
Qed.

(** And a run is a completed call of the function, with fuel enough for
    the nesting of its calls. *)
Lemma processNode_intro maxVisibleDepth fuel node depth st n st2 st' :
  depth ≤ maxVisibleDepth →
  heap st !! node = Some n →
  forEachSubThought (processNode maxVisibleDepth fuel) (mkD3Node node n) depth
    (ThoughtNode.subThoughts n) (push_node (mkD3Node node n) st) = Ok st2 →
  AliasStep maxVisibleDepth fuel n (mkD3Node node n) depth st2 st' →
  processNode maxVisibleDepth (S fuel) node depth st
  = Ok (Some (mkD3Node node n), st').
Proof.
  intros Hd Hn Hsubs Hstep. rewrite processNode_S.
  destruct (Z.gtb_spec depth maxVisibleDepth) as [?|_]; [lia|].
  rewrite Hn. simpl. rewrite Hsubs, Outcome_bind_ret.
  destruct Hstep as [Ha|alias an Ha Han Hex|alias an g Ha Han Hex Hfind
                    |alias an g st3 Ha Han Hex Hfind Hv
                    |alias an st3 Ha Han Hex Hfind Hv]; rewrite Ha; [done|..];
    rewrite Han, Hex; [done|..]; rewrite Hfind; [done|..];
    by rewrite Hv.
Qed.

Lemma AliasStep_fuel_mono maxVisibleDepth fuel fuel' n d3Node depth st st' :
  (fuel ≤ fuel')%nat →
  AliasStep maxVisibleDepth fuel n d3Node depth st st' →
  AliasStep maxVisibleDepth fuel' n d3Node depth st st'.
Proof.
  intros Hle Hstep. destruct Hstep.
  - by constructor.
  - by eapply alias_joined.
  - by eapply alias_found.
  - eapply alias_visited; try done. by eapply processNode_fuel_mono.
  - eapply alias_invisible; try done. by eapply processNode_fuel_mono.
Qed.

Lemma runs_computed maxVisibleDepth :
  (∀ node depth st r st',
     Visit maxVisibleDepth node depth st r st' →
     ∃ fuel, processNode maxVisibleDepth fuel node depth st = Ok (r, st'))
  ∧ (∀ d3Node depth subs st st',
       SubThoughts maxVisibleDepth d3Node depth subs st st' →
       ∃ fuel, forEachSubThought (processNode maxVisibleDepth fuel)
                 d3Node depth subs st = Ok st')
  ∧ (∀ n d3Node depth st st',
       AliasResolution maxVisibleDepth n d3Node depth st st' →
       ∃ fuel, AliasStep maxVisibleDepth fuel n d3Node depth st st').
Proof.
  apply runs_ind.
  - intros node depth st Hd. exists 1%nat. rewrite processNode_S.
    by destruct (Z.gtb_spec depth maxVisibleDepth) as [_|?]; [|lia].
  - intros node depth st n st2 st' Hd Hn _ [f1 Hsubs] _ [f2 Hstep].
    exists (S (f1 `max` f2)). apply (processNode_intro _ _ _ _ _ _ st2); try done.
    + eapply forEachSubThought_mono; [|done].
      intros c d s x. apply processNode_fuel_mono. lia.
    + eapply AliasStep_fuel_mono; [|done]. lia.
  - intros d3Node depth st. by exists 0%nat.
  - intros d3Node depth c rest st g st' st2 _ [f1 Hv] _ [f2 Hrest].
    exists (f1 `max` f2)%nat. rewrite forEachSubThought_cons.
    rewrite (processNode_fuel_mono _ f1 (f1 `max` f2)%nat _ _ _ _ ltac:(lia) Hv).
    rewrite Outcome_bind_ret.
    eapply forEachSubThought_mono; [|done].
    intros c' d s x. apply processNode_fuel_mono. lia.
  - intros d3Node depth c rest st st' st2 _ [f1 Hv] _ [f2 Hrest].
    exists (f1 `max` f2)%nat. rewrite forEachSubThought_cons.
    rewrite (processNode_fuel_mono _ f1 (f1 `max` f2)%nat _ _ _ _ ltac:(lia) Hv).
    rewrite Outcome_bind_ret.
    eapply forEachSubThought_mono; [|done].
    intros c' d s x. apply processNode_fuel_mono. lia.
  - intros n d3Node depth st Ha. exists 0%nat. by constructor.
  - intros n d3Node depth st alias an Ha Han Hex. exists 0%nat.
    by eapply alias_joined.
  - intros n d3Node depth st alias an g Ha Han Hex Hfind. exists 0%nat.
    by eapply alias_found.
  - intros n d3Node depth st alias an g st3 Ha Han Hex Hfind _ [f Hv].
    exists f. by eapply alias_visited.
  - intros n d3Node depth st alias an st3 Ha Han Hex Hfind _ [f Hv].
    exists f. by eapply alias_invisible.
Qed.

Lemma run_flattenWith maxVisibleDepth (h : Heap) (rootThoughts : list ref) st :
  Flattens maxVisibleDepth h rootThoughts st →
  ∃ fuel, flattenWith maxVisibleDepth fuel h rootThoughts = Ok st.
Proof.
  unfold flattenWith, Flattens.
  generalize {| heap := h; d3Nodes := []; d3Links := [] |}.
  intros st0 Hrun.
  induction Hrun as [st0|r rest st0 g st' st2 Hv _ [f2 IH]].
  - by exists 0%nat.
  - destruct (runs_computed maxVisibleDepth) as (Hvisit & _ & _).
    destruct (Hvisit _ _ _ _ _ Hv) as [f1 Hv'].
    exists (f1 `max` f2)%nat. simpl.
    rewrite (processNode_fuel_mono _ f1 (f1 `max` f2)%nat _ _ _ _ ltac:(lia) Hv').
    rewrite Outcome_bind_ret.
    eapply forEachRoot_fuel_mono; [|done]. lia.
Qed.

(** On a store whose references are all objects the effect has a run. *)
Lemma Flattens_exists maxVisibleDepth (h : Heap) (rootThoughts : list ref) :
  heap_closed h = true →
  roots_ok h rootThoughts = true →
  ∃ st, Flattens maxVisibleDepth h rootThoughts st.
Proof.
  intros Hclosed Hroots.
  destruct (flatten_terminates maxVisibleDepth h rootThoughts Hclosed Hroots)
    as (st & Hrun & _).
  exists st. by eapply flattenWith_run.
Qed.



(** ** The flattening pass on the sample forests *)

(** The four scenarios of the specification. *)
Example scenario_single_root :
  ∃ st, flatten 5 [thought "r1" [] None] [0%nat] = Ok st
    ∧ nodeIds st = ["r1"] ∧ linkEnds st = [].
Proof. eexists. by split. Qed.

Example scenario_root_with_child :
  ∃ st, flatten 5 [thought "r1" [1%nat] None; thought "c1" [] None] [0%nat] = Ok st
    ∧ nodeIds st = ["r1"; "c1"] ∧ linkEnds st = [("r1", "c1", false)].
Proof. eexists. by split. Qed.

Example scenario_self_alias :
  ∃ st, flatten 5 [thought "r1" [] (Some 0%nat)] [0%nat] = Ok st
    ∧ nodeIds st = ["r1"] ∧ linkEnds st = [("r1", "r1", true)].
Proof. eexists. by split. Qed.

Example scenario_second_root_aliases_first :
  ∃ st, flatten 5 [thought "a" [] None; thought "b" [] (Some 0%nat)]
          [0%nat; 1%nat] = Ok st
    ∧ nodeIds st = ["a"; "b"] ∧ linkEnds st = [("b", "a", true)].
Proof. eexists. by split. Qed.

(** C1: on a root "a" with children "b" and "c" where "b" aliases "c", the
    pass makes a GraphNode for "c" when it resolves the alias of "b" and a
    second one when it reaches "c" as a child of "a": the node list holds two
    GraphNodes with id "c". *)
Theorem C1_duplicate_node :
  ∃ st,
    flatten 5 siblingAliasForest [0%nat] = Ok st
    ∧ nodeIds st = ["a"; "b"; "c"; "c"]
    ∧ ¬ NoDup (nodeIds st).
Proof.
  eexists. split; [reflexivity|]. split; [reflexivity|].
  change (¬ NoDup ["a"; "b"; "c"; "c"]).
  intros Hnd. apply (NoDup_lookup _ 2%nat 3%nat "c") in Hnd; done.
Qed.

(** C2: on a root "p" whose child is [p.createSelfReference()], the child's
    alias link to "p" is pushed while the visit of the child is still running,
    before the structural link from "p" to the child exists; the link list
    ends up with two links between the two ids.  The same happens for two
    nodes that alias each other. *)
Theorem C2_duplicate_link :
  (∃ h st,
     selfReferenceForest = Some h
     ∧ flatten 5 h [0%nat] = Ok st
     ∧ linkEnds st = [("p-self-ref", "p", true); ("p", "p-self-ref", false)]
     ∧ length (filter (λ l, joins "p" "p-self-ref" l = true) (d3Links st)) = 2%nat)
  ∧ (∃ st,
       flatten 5 mutualAliasForest [0%nat] = Ok st
       ∧ linkEnds st = [("b", "a", true); ("a", "b", true)]
       ∧ length (filter (λ l, joins "a" "b" l = true) (d3Links st)) = 2%nat).
Proof.
  split.
  - eexists _, _. split; [reflexivity|]. split; [reflexivity|]. by vm_compute.
  - eexists. split; [reflexivity|]. by vm_compute.
Qed.

(** ** Depth truncation *)

(** C4, as the code has it: with [maxVisibleDepth = 0] every root gets a
    GraphNode, every GraphNode belongs to a root or to a node reached from a
    root by following [aliasNode] references, and no structural link is made.
    In general a visit at a depth beyond the bound returns [undefined] and
    pushes nothing, so the loop over the children of a node on the last level
    leaves both arrays as they are; every GraphNode belongs to a node that can
    be reached from a root with at most [maxVisibleDepth] steps down (alias
    steps not counted), and the target of every structural link is such a
    node on level 1 or deeper. *)
Theorem C4_depth_truncation maxVisibleDepth fuel (h : Heap)
    (rootThoughts : list ref) st :
  flattenWith maxVisibleDepth fuel h rootThoughts = Ok st →
  (maxVisibleDepth = 0 →
     (∀ r, r ∈ rootThoughts → ∃ g, g ∈ d3Nodes st ∧ D3Node.originalNode g = r)
     ∧ (∀ g, g ∈ d3Nodes st →
          ∃ r, r ∈ rootThoughts ∧ alias_reach h r (D3Node.originalNode g))
     ∧ (∀ l, l ∈ d3Links st → D3Link.isAlias l = true))
  ∧ (∀ fuel' node depth st0,
       maxVisibleDepth < depth →
       processNode maxVisibleDepth (S fuel') node depth st0 = Ok (None, st0))
  ∧ (∀ fuel' d3Node depth subs st0,
       maxVisibleDepth < depth + 1 →
       forEachSubThought (processNode maxVisibleDepth (S fuel')) d3Node depth
         subs st0 = Ok st0)
  ∧ (∀ g, g ∈ d3Nodes st →
       ∃ d, 0 ≤ d ≤ maxVisibleDepth
            ∧ reached maxVisibleDepth h rootThoughts (D3Node.originalNode g) d)
  ∧ (∀ l, l ∈ d3Links st → D3Link.isAlias l = false →
       ∃ d, 1 ≤ d ≤ maxVisibleDepth
            ∧ reached maxVisibleDepth h rootThoughts
                (D3Node.originalNode (D3Link.target l)) d).
Proof.
  intros Hrun.
  assert (Hwb : within_bound maxVisibleDepth h rootThoughts st).
  { eapply forEachRoot_within; [exact Hrun|done|done|].
    split; intros x Hx; by apply elem_of_nil in Hx. }
  destruct Hwb as [Hnodes Hlinks].
  split; [|split; [|split; [|split]]].
  - intros H0. split; [|split].
    + intros r Hr. eapply forEachRoot_visits; [exact Hrun|lia|done].
    + intros g (d & Hd)%Hnodes. by eapply reached_0_alias.
    + intros l Hl. destruct (D3Link.isAlias l) eqn:Hal; [done|].
      destruct (Hlinks l Hl Hal) as (d & Hd & Hr).
      apply reached_bounds in Hr. lia.
  - intros. by apply processNode_beyond.
  - intros. by apply forEachSubThought_beyond.
  - intros g (d & Hd)%Hnodes. exists d. split; [by eapply reached_bounds|done].
  - intros l Hl Hal. destruct (Hlinks l Hl Hal) as (d & Hd & Hr).
    exists d. split; [|done]. apply reached_bounds in Hr. lia.
Qed.

Lemma C4_depth_truncation_witness :
  ∃ st,
    flattenWith 0 3 childAliasForest [0%nat] = Ok st
    ∧ (∀ g, g ∈ d3Nodes st →
         ∃ r, r ∈ [0%nat] ∧ alias_reach childAliasForest r (D3Node.originalNode g))
    ∧ (∀ l, l ∈ d3Links st → D3Link.isAlias l = true).
Proof.
  eexists. split; [reflexivity|].
  destruct (C4_depth_truncation 0 3 childAliasForest [0%nat] _ eq_refl)
    as (H0 & _).
  destruct (H0 eq_refl) as (_ & Hnodes & Hlinks). split; assumption.
Defined.

(** With the bound at 0, a root "a" that aliases its own child "b" still
    gets a GraphNode for "b", which is no root and is one of the root's
    [subThoughts]: the alias target is visited at depth 0. *)
Lemma C4_counterexample :
  ∃ st,
    flatten 0 childAliasForest [0%nat] = Ok st
    ∧ nodeIds st = ["a"; "b"]
    ∧ ¬ (∀ g, g ∈ d3Nodes st → D3Node.originalNode g ∈ [0%nat])
    ∧ ¬ (∀ g n, g ∈ d3Nodes st → childAliasForest !! 0%nat = Some n →
           D3Node.originalNode g ∉ ThoughtNode.subThoughts n).
Proof.
  eexists. split; [reflexivity|]. split; [reflexivity|].
  assert (Hb : mkD3Node 1%nat (thought "b" [] None)
               ∈ [mkD3Node 0%nat (thought "a" [1%nat] (Some 1%nat));
                  mkD3Node 1%nat (thought "b" [] None)])
    by apply list_elem_of_further, list_elem_of_here.
  split.
  - intros Hall. apply Hall in Hb. by apply list_elem_of_singleton in Hb.
  - intros Hall. apply (Hall _ _ Hb eq_refl). apply list_elem_of_here.
Qed.

(** ** The existing-link check of the alias step *)

(** C9, as the code has it: in a visit within the bound of a node with an
    [aliasNode], if after the loop over the children some link joins the ids
    of the node and of its alias target (either kind, either direction), the
    visit ends there and pushes no alias link; in particular, when the alias
    target is one of the node's own children and the children are within the
    bound, the structural link to that child is in the list and the visit
    pushes no alias link. *)
Theorem C9_alias_guard maxVisibleDepth fuel node n alias an depth st r st' :
  processNode maxVisibleDepth (S fuel) node depth st = Ok (r, st') →
  depth ≤ maxVisibleDepth →
  heap st !! node = Some n →
  ThoughtNode.aliasNode n = Some alias →
  heap st !! alias = Some an →
  ∃ st2,
    forEachSubThought (processNode maxVisibleDepth fuel) (mkD3Node node n) depth
      (ThoughtNode.subThoughts n) (push_node (mkD3Node node n) st) = Ok st2
    ∧ (existsb (joins (ThoughtNode.id n) (ThoughtNode.id an)) (d3Links st2) = true →
       st' = st2)
    ∧ (alias ∈ ThoughtNode.subThoughts n → depth + 1 ≤ maxVisibleDepth →
       st' = st2
       ∧ childLink (mkD3Node node n) (mkD3Node alias an) ∈ d3Links st').
Proof.
  intros Hrun Hd Hn Ha Han.
  apply processNode_inv in Hrun as [(? & _)|(_ & n' & st2 & Hn' & -> & Hsubs & Halias)];
    [lia|].
  assert (n' = n) as -> by congruence.
  pose proof (extends_heap _ _ (forEachSubThought_extends _ _ _ _ _ _ _ Hsubs)) as Hh2.
  simpl in Hh2.
  assert (Hguard : existsb (joins (ThoughtNode.id n) (ThoughtNode.id an))
                     (d3Links st2) = true → st' = st2).
  { intros Hex. destruct Halias as [|?? Ha' Han'|?? g Ha' Han' Hex'|?? g ? Ha' Han' Hex'
                                   |?? ? Ha' Han' Hex']; try done;
      rewrite Ha in Ha'; injection Ha' as <-; rewrite Hh2, Han in Han';
      injection Han' as <-; congruence. }
  exists st2. split; [done|]. split; [done|].
  intros Hchild Hd'.
  assert (Hlink : childLink (mkD3Node node n) (mkD3Node alias an) ∈ d3Links st2).
  { eapply forEachSubThought_child_link; [exact Hsubs|done|done|done]. }
  assert (st' = st2) as ->.
  { apply Hguard. apply existsb_exists.
    exists (childLink (mkD3Node node n) (mkD3Node alias an)).
    split; [by apply list_elem_of_In|]. apply joins_spec. by left. }
  done.
Qed.

Lemma C9_alias_guard_witness :
  ∃ st2,
    forEachSubThought (processNode 5 2) (mkD3Node 0%nat (thought "a" [1%nat] (Some 1%nat)))
      0 [1%nat]
      (push_node (mkD3Node 0%nat (thought "a" [1%nat] (Some 1%nat)))
         {| heap := childAliasForest; d3Nodes := []; d3Links := [] |}) = Ok st2
    ∧ (existsb (joins "a" "b") (d3Links st2) = true →
       {| heap := childAliasForest;
          d3Nodes := [mkD3Node 0%nat (thought "a" [1%nat] (Some 1%nat));
                      mkD3Node 1%nat (thought "b" [] None)];
          d3Links := [childLink (mkD3Node 0%nat (thought "a" [1%nat] (Some 1%nat)))
                        (mkD3Node 1%nat (thought "b" [] None))] |} = st2)
    ∧ ((1%nat : ref) ∈ [1%nat] → 0 + 1 ≤ 5 →
       {| heap := childAliasForest;
          d3Nodes := [mkD3Node 0%nat (thought "a" [1%nat] (Some 1%nat));
                      mkD3Node 1%nat (thought "b" [] None)];
          d3Links := [childLink (mkD3Node 0%nat (thought "a" [1%nat] (Some 1%nat)))
                        (mkD3Node 1%nat (thought "b" [] None))] |} = st2
       ∧ childLink (mkD3Node 0%nat (thought "a" [1%nat] (Some 1%nat)))
           (mkD3Node 1%nat (thought "b" [] None))
         ∈ [childLink (mkD3Node 0%nat (thought "a" [1%nat] (Some 1%nat)))
              (mkD3Node 1%nat (thought "b" [] None))]).
Proof.
  apply (C9_alias_guard 5 2 0%nat (thought "a" [1%nat] (Some 1%nat)) 1%nat
           (thought "b" [] None) 0
           {| heap := childAliasForest; d3Nodes := []; d3Links := [] |}
           (Some (mkD3Node 0%nat (thought "a" [1%nat] (Some 1%nat)))));
    [reflexivity|lia|reflexivity|reflexivity|reflexivity].
Defined.

(** On the root "p" whose child is [p.createSelfReference()], the child's
    alias target is its tree parent, and the output holds an alias link from
    the child to the parent next to the structural link. *)
Lemma C9_counterexample :
  ∃ h st,
    selfReferenceForest = Some h
    ∧ ThoughtNode.subThoughts <$> h !! 0%nat = Some [1%nat]
    ∧ ThoughtNode.aliasNode <$> h !! 1%nat = Some (Some 0%nat)
    ∧ flatten 5 h [0%nat] = Ok st
    ∧ linkEnds st = [("p-self-ref", "p", true); ("p", "p-self-ref", false)]
    ∧ ¬ (∀ l, l ∈ d3Links st → D3Link.isAlias l = false).
Proof.
  eexists _, _. split; [reflexivity|]. split; [reflexivity|].
  split; [reflexivity|]. split; [reflexivity|]. split; [reflexivity|].
  intros Hall.
  assert (true = false); [|done].
  eapply (Hall (aliasLink _ _)). apply list_elem_of_here.
Qed.

(** ** The rendering attributes *)

Lemma string_length_append (s1 s2 : string) :
  String.length (s1 +:+ s2) = (String.length s1 + String.length s2)%nat.
Proof.
  induction s1 as [|a s1 IH]; [done|].
  change (S (String.length (s1 +:+ s2))
          = S (String.length s1 + String.length s2)). by rewrite IH.
Qed.

Lemma string_length_substring_0 (m : nat) (s : string) :
  String.length (String.substring 0 m s) = (m `min` String.length s)%nat.
Proof.
  revert s. induction m as [|m IH]; intros [|a s]; simpl; try done.
  by rewrite IH.
Qed.

Lemma string_prefix_substring_0 (m : nat) (s : string) :
  String.prefix (String.substring 0 m s) s = true.
Proof.
  revert s. induction m as [|m IH]; intros [|a s]; simpl; try done.
  destruct (Ascii.ascii_dec a a); [apply IH|done].
Qed.

(** X1: the label of a node never has more than 20 characters: it has the
    length of the content capped at 20, and it is either the content itself
    or the first 17 characters of the content followed by three dots. *)
Theorem X1_nodeLabel_bounded (d : D3Node.t) :
  String.length (nodeLabel d) = (20 `min` String.length (D3Node.content d))%nat
  ∧ (nodeLabel d = D3Node.content d
     ∨ ∃ p, nodeLabel d = p +:+ "..."
            ∧ String.length p = 17%nat
            ∧ String.prefix p (D3Node.content d) = true).
Proof.
  unfold nodeLabel.
  destruct (Nat.ltb_spec 20 (String.length (D3Node.content d))) as [Hlong|Hshort].
  - split.
    + rewrite string_length_append, string_length_substring_0.
      change (String.length "...") with 3%nat. lia.
    + right. exists (String.substring 0 17 (D3Node.content d)).
      split; [done|]. split; [|apply string_prefix_substring_0].
      rewrite string_length_substring_0. lia.
  - split; [lia|by left].
Qed.

(** X2: the palette gives different node types different fill colours. *)
Theorem X2_NODE_COLORS_injective (t1 t2 : ThoughtNodeType) :
  NODE_COLORS t1 = NODE_COLORS t2 → t1 = t2.
Proof. destruct t1, t2; simpl; intros [=]; reflexivity. Qed.

Lemma X2_NODE_COLORS_injective_witness :
  NODE_COLORS META_REFLECTION = "#9C27B0" ∧ META_REFLECTION = META_REFLECTION.
Proof.
  split; [reflexivity|].
  apply (X2_NODE_COLORS_injective META_REFLECTION META_REFLECTION). reflexivity.
Defined.

(** X3: a status indicator is drawn for every status but pending, so the
    [default] colour of the fill switch is never drawn, and two nodes that
    get an indicator of the same colour have the same status. *)
Theorem X3_statusIndicator_colours (d1 d2 : D3Node.t) :
  hasStatusIndicator d1 = true →
  hasStatusIndicator d2 = true →
  statusIndicatorFill d1 ≠ "#999"
  ∧ (statusIndicatorFill d1 = statusIndicatorFill d2 →
     D3Node.status d1 = D3Node.status d2).
Proof.
  unfold hasStatusIndicator, statusIndicatorFill.
  destruct (D3Node.status d1), (D3Node.status d2); simpl; intros [=] [=];
    (split; [done|intros [=]; reflexivity]).
Qed.

Lemma X3_statusIndicator_colours_witness :
  statusIndicatorFill (mkD3Node 0%nat (thought "a" [] None)) = "#999"
  ∧ hasStatusIndicator (mkD3Node 0%nat (thought "a" [] None)) = false
  ∧ statusIndicatorFill
      (mkD3Node 0%nat
         (withMetadata (thought "a" [] None)
            {| createdAt := 0; evaluationStatus := ERROR;
               recursionDepth := 0; memoizationKey := None |})) ≠ "#999".
Proof.
  split; [reflexivity|]. split; [reflexivity|].
  apply (X3_statusIndicator_colours
           (mkD3Node 0%nat
              (withMetadata (thought "a" [] None)
                 {| createdAt := 0; evaluationStatus := ERROR;
                    recursionDepth := 0; memoizationKey := None |}))
           (mkD3Node 0%nat
              (withMetadata (thought "a" [] None)
                 {| createdAt := 0; evaluationStatus := ERROR;
                    recursionDepth := 0; memoizationKey := None |})));
    reflexivity.
Defined.

(** X4: the [marker-end] of every link path refers to one of the two arrow
    markers defined in [defs], and that marker is filled with the colour the
    link is stroked with. *)
Theorem X4_link_marker_defined (d : D3Link.t) :
  ∃ k, k ∈ markerKinds
       ∧ linkMarkerEnd d = "url(#" +:+ markerId k +:+ ")"
       ∧ markerFill k = linkStroke d.
Proof.
  unfold linkMarkerEnd, linkStroke, markerKinds.
  destruct (D3Link.isAlias d).
  - exists "alias". split; [|done]. apply list_elem_of_further, list_elem_of_here.
  - exists "standard". split; [|done]. apply list_elem_of_here.
Qed.

(** ** More facts about the flattening pass *)

Section MoreFlatteningFacts.
Variable maxVisibleDepth : Z.

Abbreviation processNode := (processNode maxVisibleDepth).
Abbreviation forEachRoot := (forEachRoot maxVisibleDepth).
Abbreviation flattenWith := (flattenWith maxVisibleDepth).

(** An invariant of the store is kept by a visit as soon as the three pushes
    keep it; each push comes with what is known where the code makes it. *)
Lemma processNode_invariant (I : Store → Prop) :
  (∀ st node n,
     I st → heap st !! node = Some n →
     I (push_node (mkD3Node node n) st)) →
  (∀ st node n c cn,
     I st → heap st !! node = Some n →
     c ∈ ThoughtNode.subThoughts n → heap st !! c = Some cn →
     mkD3Node node n ∈ d3Nodes st → mkD3Node c cn ∈ d3Nodes st →
     I (push_link (childLink (mkD3Node node n) (mkD3Node c cn)) st)) →
  (∀ st node n a an g,
     I st → heap st !! node = Some n →
     ThoughtNode.aliasNode n = Some a → heap st !! a = Some an →
     mkD3Node node n ∈ d3Nodes st → g ∈ d3Nodes st →
     D3Node.id g = ThoughtNode.id an →
     I (push_link (aliasLink (mkD3Node node n) g) st)) →
  ∀ fuel node depth st r st',
    processNode fuel node depth st = Ok (r, st') → I st → I st'.
Proof.
  intros Hnode Hchild Halias.
  induction fuel as [|fuel IH]; intros node depth st r st' Hrun HI; [done|].
  apply processNode_inv in Hrun
    as [(_ & _ & ->)|(Hd & n & st2 & Hn & -> & Hsubs & Hstep)]; [done|].
  set (d3Node := mkD3Node node n) in *.
  assert (Hin1 : d3Node ∈ d3Nodes (push_node d3Node st)).
  { simpl. apply elem_of_app. right. apply list_elem_of_here. }
  assert (Hst2 : I st2 ∧ extends (push_node d3Node st) st2).
  { revert Hsubs.
    apply (forEachSubThought_invariant
             (λ s, I s ∧ extends (push_node d3Node st) s)); [|split; [by apply Hnode|done]].
    intros c s r s' Hc [Hs Hext] Hv.
    pose proof (processNode_extends _ _ _ _ _ _ _ Hv) as Hext'.
    pose proof (IH _ _ _ _ _ Hv Hs) as Hs'.
    destruct r as [g|]; [|split; [done|by etrans]].
    pose proof Hv as Hv'.
    apply processNode_Some in Hv' as (Hd' & cn & Hcn & ->).
    apply processNode_visible in Hv as (cn' & Hcn' & _ & Hg); [|done].
    assert (cn' = cn) as -> by congruence.
    assert (Hhs' : heap s' = heap st).
    { rewrite (extends_heap _ _ Hext'), (extends_heap _ _ Hext). done. }
    split; [|etrans; [by etrans|apply extends_push_link]].
    apply Hchild; try done.
    - by rewrite Hhs'.
    - rewrite Hhs'. rewrite (extends_heap _ _ Hext) in Hcn. done.
    - eapply extends_node; [|exact Hin1]. by etrans. }
  destruct Hst2 as [HI2 Hext2].
  pose proof (extends_heap _ _ Hext2) as Hh2. simpl in Hh2.
  pose proof (extends_node _ _ _ Hext2 Hin1) as Hin2.
  destruct Hstep as [Hnone|alias an Ha Han Hex|alias an g Ha Han Hex Hfind
                    |alias an g st3 Ha Han Hex Hfind Hv|alias an st3 Ha Han Hex Hfind Hv];
    try done.
  - apply find_hasId_Some in Hfind as [Hg Hid].
    apply Halias with (a := alias) (an := an); try done. by rewrite Hh2.
  - pose proof (processNode_extends _ _ _ _ _ _ _ Hv) as Hext3.
    pose proof (extends_heap _ _ Hext3) as Hh3.
    pose proof (IH _ _ _ _ _ Hv HI2) as HI3.
    pose proof Hv as Hv'.
    apply processNode_Some in Hv' as (_ & an' & Han' & ->).
    assert (an' = an) as -> by congruence.
    apply processNode_visible in Hv as (an' & Han'' & _ & Hg); [|done].
    assert (an' = an) as -> by congruence.
    apply Halias with (a := alias) (an := an); try done;
      first [by rewrite Hh3, Hh2|by rewrite Hh3|by eapply extends_node].
  - by eapply IH.
Qed.

Lemma forEachRoot_invariant (I : Store → Prop) fuel roots st st' :
  (∀ node depth s r s', processNode fuel node depth s = Ok (r, s') → I s → I s') →
  forEachRoot fuel roots st = Ok st' → I st → I st'.
Proof.
  intros Hvisit. revert st.
  induction roots as [|r rest IH]; intros st Hrun HI; simpl in Hrun.
  - by injection Hrun as <-.
  - apply Outcome_bind_Ok in Hrun as ([g s] & Hr & Hrest).
    eapply IH; [exact Hrest|]. by eapply Hvisit.
Qed.

(** *** The output is a graph over the forest *)

Lemma processNode_well_formed h fuel node depth st r st' :
  processNode fuel node depth st = Ok (r, st') →
  well_formed h st → well_formed h st'.
Proof.
  apply (processNode_invariant (well_formed h)).
  - intros s x n Hs Hn. apply well_formed_push_node; [done|].
    destruct Hs as (Hh & _). by rewrite <-Hh.
  - intros s x n c cn Hs _ _ _ Hx Hc. by apply well_formed_push_link.
  - intros s x n a an g Hs _ _ _ Hx Hg _. by apply well_formed_push_link.
Qed.

Lemma processNode_links_sound h fuel node depth st r st' :
  processNode fuel node depth st = Ok (r, st') →
  heap st = h ∧ (∀ l, l ∈ d3Links st → link_sound h l) →
  heap st' = h ∧ (∀ l, l ∈ d3Links st' → link_sound h l).
Proof.
  apply (processNode_invariant
           (λ s, heap s = h ∧ ∀ l, l ∈ d3Links s → link_sound h l)).
  - intros s x n [Hh Hs] Hn. done.
  - intros s x n c cn [Hh Hs] Hn Hc Hcn _ _. split; [done|].
    intros l [Hl| ->%list_elem_of_singleton]%elem_of_app; [by apply Hs|].
    exists n. simpl. by rewrite <-Hh.
  - intros s x n a an g [Hh Hs] Hn Ha Han _ _ Hid. split; [done|].
    intros l [Hl| ->%list_elem_of_singleton]%elem_of_app; [by apply Hs|].
    exists n. simpl. split; [by rewrite <-Hh|].
    exists a, an. by rewrite <-Hh.
Qed.

(** *** A bound below zero *)

Lemma forEachRoot_beyond fuel roots st :
  maxVisibleDepth < 0 → forEachRoot (S fuel) roots st = Ok st.
Proof.
  intros Hd. induction roots as [|r rest IH]; [done|].
  change (forEachRoot (S fuel) (r :: rest) st)
    with ('(_, st') ← processNode (S fuel) r 0 st; forEachRoot (S fuel) rest st').
  rewrite processNode_beyond by done. by rewrite Outcome_bind_ret.
Qed.

(** *** Every node within the bound is visited *)

Lemma forEachSubThought_visit fuel d3Node depth subs st st2 c :
  forEachSubThought (processNode fuel) d3Node depth subs st = Ok st2 →
  c ∈ subs →
  ∃ s r s',
    processNode fuel c (depth + 1) s = Ok (r, s')
    ∧ extends st s ∧ extends s' st2.
Proof.
  revert st. induction subs as [|c' rest IH]; intros st Hrun Hc;
    [by apply elem_of_nil in Hc|].
  rewrite forEachSubThought_cons in Hrun.
  apply Outcome_bind_Ok in Hrun as ([r s'] & Hv & Hrest).
  pose proof (processNode_extends _ _ _ _ _ _ _ Hv) as Hext.
  assert (Hnext : ∃ s'', forEachSubThought (processNode fuel) d3Node depth rest s''
                          = Ok st2 ∧ extends s' s'').
  { destruct r; eexists; (split; [exact Hrest|]); [apply extends_push_link|done]. }
  destruct Hnext as (s'' & Hrest' & Hext').
  apply elem_of_cons in Hc as [->|Hc].
  - exists st, r, s'. split; [done|]. split; [done|].
    etrans; [exact Hext'|]. by eapply forEachSubThought_extends.
  - destruct (IH _ Hrest' Hc) as (s0 & r0 & s0' & Hv0 & Hext0 & Hext0').
    exists s0, r0, s0'. split; [done|]. split; [|done].
    etrans; [exact Hext|]. by etrans.
Qed.

Lemma forEachRoot_visit fuel roots st st' x :
  forEachRoot fuel roots st = Ok st' →
  x ∈ roots →
  ∃ s r s',
    processNode fuel x 0 s = Ok (r, s') ∧ extends st s ∧ extends s' st'.
Proof.
  revert st. induction roots as [|x' rest IH]; intros st Hrun Hx;
    [by apply elem_of_nil in Hx|].
  simpl in Hrun. apply Outcome_bind_Ok in Hrun as ([r s'] & Hv & Hrest).
  pose proof (processNode_extends _ _ _ _ _ _ _ Hv) as Hext.
  apply elem_of_cons in Hx as [->|Hx].
  - exists st, r, s'. split; [done|]. split; [done|]. by eapply forEachRoot_extends.
  - destruct (IH _ Hrest Hx) as (s0 & r0 & s0' & Hv0 & Hext0 & Hext0').
    exists s0, r0, s0'. split; [done|]. split; [by etrans|done].
Qed.

Lemma processNode_descends h fuel x d st r st' y e :
  descends maxVisibleDepth h x d y e →
  processNode fuel x d st = Ok (r, st') → heap st = h →
  ∃ fuel' s r' s',
    processNode fuel' y e s = Ok (r', s') ∧ extends st s ∧ extends s' st'.
Proof.
  intros Hdesc. revert fuel st r st'.
  induction Hdesc as [x d Hd|x d n c y e Hd Hn Hc Hdesc IH];
    intros fuel st r st' Hrun Hh.
  { exists fuel, st, r, st'. done. }
  destruct fuel as [|fuel]; [done|].
  apply processNode_inv in Hrun
    as [(? & _)|(_ & n' & st2 & Hn' & -> & Hsubs & Hstep)]; [lia|].
  rewrite Hh in Hn'. assert (n' = n) as -> by congruence.
  destruct (forEachSubThought_visit _ _ _ _ _ _ c Hsubs Hc)
    as (s & r & s' & Hv & Hext & Hext').
  destruct (IH _ _ _ _ Hv) as (fuel' & s0 & r0 & s0' & Hv0 & Hext0 & Hext0').
  { rewrite (extends_heap _ _ Hext). done. }
  exists fuel', s0, r0, s0'. split; [done|]. split.
  - etrans; [apply extends_push_node|]. by etrans.
  - etrans; [exact Hext0'|]. etrans; [exact Hext'|].
    by eapply AliasStep_extends.
Qed.

(** A visit within the bound with room below it leaves a structural link
    to each of the node's children. *)
Lemma processNode_child_links fuel x d st r st' n c :
  processNode fuel x d st = Ok (r, st') →
  d + 1 ≤ maxVisibleDepth → heap st !! x = Some n →
  c ∈ ThoughtNode.subThoughts n →
  ∃ cn, heap st !! c = Some cn
        ∧ mkD3Node c cn ∈ d3Nodes st'
        ∧ childLink (mkD3Node x n) (mkD3Node c cn) ∈ d3Links st'.
Proof.
  intros Hrun Hd Hn Hc. destruct fuel as [|fuel]; [done|].
  apply processNode_inv in Hrun
    as [(? & _)|(_ & n' & st2 & Hn' & -> & Hsubs & Hstep)]; [lia|].
  assert (n' = n) as -> by congruence.
  destruct (forEachSubThought_visit _ _ _ _ _ _ c Hsubs Hc)
    as (s & r & s' & Hv & Hext & Hext').
  apply processNode_visible in Hv as (cn & Hcn & _ & Hin); [|done].
  rewrite (extends_heap _ _ Hext) in Hcn. simpl in Hcn.
  apply AliasStep_extends in Hstep.
  exists cn. split; [done|]. split.
  - eapply extends_node; [|exact Hin]. by etrans.
  - eapply extends_link; [exact Hstep|].
    by eapply forEachSubThought_child_link.
Qed.

(** *** Aliases are served *)

Lemma alias_served_extends h st st' g :
  alias_served h st g → extends st st' → alias_served h st' g.
Proof.
  intros Hg Hext n a an Hn Ha Han.
  destruct (Hg n a an Hn Ha Han) as [(l & Hl & Hj) (g' & Hg' & Hid)]. split.
  - exists l. split; [by eapply extends_link|done].
  - exists g'. split; [by eapply extends_node|done].
Qed.

Lemma well_formed_push_child h d3Node g s :
  well_formed h s → d3Node ∈ d3Nodes s → g ∈ d3Nodes s →
  well_formed h (push_link (childLink d3Node g) s).
Proof. intros. by apply well_formed_push_link. Qed.

Lemma forEachSubThought_alias_served h fuel d3Node depth subs st st2 :
  (∀ x d s r s',
     processNode fuel x d s = Ok (r, s') → well_formed h s →
     ∃ k, d3Nodes s' = d3Nodes s ++ k ∧ ∀ g, g ∈ k → alias_served h s' g) →
  forEachSubThought (processNode fuel) d3Node depth subs st = Ok st2 →
  well_formed h st → d3Node ∈ d3Nodes st →
  well_formed h st2
  ∧ ∃ k, d3Nodes st2 = d3Nodes st ++ k ∧ ∀ g, g ∈ k → alias_served h st2 g.
Proof.
  intros Hvisit. revert st.
  induction subs as [|c rest IH]; intros st Hrun Hwf Hin.
  { injection Hrun as <-. split; [done|]. exists []. rewrite app_nil_r.
    split; [done|]. intros g Hg. by apply elem_of_nil in Hg. }
  rewrite forEachSubThought_cons in Hrun.
  apply Outcome_bind_Ok in Hrun as ([r s'] & Hv & Hrest).
  pose proof (processNode_extends _ _ _ _ _ _ _ Hv) as Hext.
  pose proof (processNode_well_formed h _ _ _ _ _ _ Hv Hwf) as Hwf'.
  destruct (Hvisit _ _ _ _ _ Hv Hwf) as (k1 & Hk1 & Hserved1).
  assert (Hnext : ∃ s'',
             forEachSubThought (processNode fuel) d3Node depth rest s'' = Ok st2
             ∧ extends s' s'' ∧ d3Nodes s'' = d3Nodes s' ∧ well_formed h s'').
  { destruct r as [g|]; [|by exists s'].
    eexists. split; [exact Hrest|]. split; [apply extends_push_link|].
    split; [done|].
    pose proof Hv as Hv'.
    apply processNode_Some in Hv' as (Hd & cn & Hcn & ->).
    apply processNode_visible in Hv as (cn' & Hcn' & _ & Hg); [|done].
    assert (cn' = cn) as -> by congruence.
    apply well_formed_push_child; [done|by eapply extends_node|done]. }
  destruct Hnext as (s'' & Hrest' & Hext' & Hnodes'' & Hwf'').
  destruct (IH s'' Hrest' Hwf'') as (Hwf2 & k2 & Hk2 & Hserved2).
  { eapply extends_node; [|exact Hin]. by etrans. }
  split; [done|].
  exists (k1 ++ k2). split; [by rewrite Hk2, Hnodes'', Hk1, app_assoc|].
  intros g [Hg|Hg]%elem_of_app; [|by apply Hserved2].
  eapply alias_served_extends; [by apply Hserved1|].
  etrans; [exact Hext'|]. by eapply forEachSubThought_extends.
Qed.

Lemma processNode_alias_served h fuel x d st r st' :
  processNode fuel x d st = Ok (r, st') → well_formed h st →
  ∃ k, d3Nodes st' = d3Nodes st ++ k ∧ ∀ g, g ∈ k → alias_served h st' g.
Proof.
  revert x d st r st'.
  induction fuel as [|fuel IH]; intros x d st r st' Hrun Hwf; [done|].
  pose proof Hwf as (Hh & _ & _).
  apply processNode_inv in Hrun
    as [(_ & _ & ->)|(Hd & n & st2 & Hn & -> & Hsubs & Hstep)].
  { exists []. rewrite app_nil_r. split; [done|].
    intros g Hg. by apply elem_of_nil in Hg. }
  rewrite Hh in Hn.
  set (d3Node := mkD3Node x n) in *.
  assert (Hin1 : d3Node ∈ d3Nodes (push_node d3Node st)).
  { simpl. apply elem_of_app. right. apply list_elem_of_here. }
  destruct (forEachSubThought_alias_served h _ _ _ _ _ _ IH Hsubs)
    as (Hwf2 & k2 & Hk2 & Hserved2); [by apply well_formed_push_node|done|].
  simpl in Hk2.
  pose proof (forEachSubThought_extends _ _ _ _ _ _ _ Hsubs) as Hext2.
  pose proof (extends_node _ _ _ Hext2 Hin1) as Hin2.
  pose proof Hwf2 as (Hh2 & _ & Hends2).
  pose proof (AliasStep_extends _ _ _ _ _ _ _ Hstep) as Hext'.
  (* what the alias step adds, and that it serves the node itself *)
  assert (Hstep' : ∃ k3,
             d3Nodes st' = d3Nodes st2 ++ k3
             ∧ (∀ g, g ∈ k3 → alias_served h st' g)
             ∧ alias_served h st' d3Node).
  { destruct Hstep as [Hnone|alias an Ha Han Hex|alias an g Ha Han Hex Hfind
                      |alias an g st3 Ha Han Hex Hfind Hv|alias an st3 Ha Han Hex Hfind Hv].
    - exists []. rewrite app_nil_r. split; [done|].
      split; [intros g Hg; by apply elem_of_nil in Hg|].
      intros n0 a an0 Hn0 Ha. simpl in Hn0. congruence.
    - exists []. rewrite app_nil_r. split; [done|].
      split; [intros g Hg; by apply elem_of_nil in Hg|].
      intros n0 a an0 Hn0 Ha0 Han0. simpl in Hn0.
      assert (n0 = n) as -> by congruence.
      assert (a = alias) as -> by congruence.
      rewrite Hh2 in Han. assert (an0 = an) as -> by congruence.
      apply existsb_exists in Hex as (l & Hl%list_elem_of_In & Hj).
      split; [by exists l|].
      destruct (Hends2 l Hl) as [Hs Ht].
      apply joins_spec in Hj as [[_ Hid]|[_ Hid]]; eauto.
    - exists []. rewrite app_nil_r. split; [done|].
      split; [intros g0 Hg0; by apply elem_of_nil in Hg0|].
      apply find_hasId_Some in Hfind as [Hg Hid].
      intros n0 a an0 Hn0 Ha0 Han0. simpl in Hn0.
      assert (n0 = n) as -> by congruence.
      assert (a = alias) as -> by congruence.
      rewrite Hh2 in Han. assert (an0 = an) as -> by congruence.
      split.
      + exists (aliasLink d3Node g). split.
        * simpl. apply elem_of_app. right. apply list_elem_of_here.
        * apply joins_spec. left. by split.
      + by exists g.
    - destruct (IH _ _ _ _ _ Hv Hwf2) as (k3 & Hk3 & Hserved3).
      exists k3. split; [done|].
      split.
      { intros g0 Hg0. eapply alias_served_extends; [by apply Hserved3|].
        apply extends_push_link. }
      pose proof Hv as Hv'.
      apply processNode_Some in Hv' as (_ & an' & Han' & ->).
      assert (an' = an) as -> by congruence.
      apply processNode_visible in Hv as (an' & Han'' & _ & Hg); [|done].
      assert (an' = an) as -> by congruence.
      intros n0 a an0 Hn0 Ha0 Han0. simpl in Hn0.
      assert (n0 = n) as -> by congruence.
      assert (a = alias) as -> by congruence.
      rewrite Hh2 in Han. assert (an0 = an) as -> by congruence.
      split.
      + exists (aliasLink d3Node (mkD3Node alias an)). split.
        * simpl. apply elem_of_app. right. apply list_elem_of_here.
        * apply joins_spec. left. by split.
      + by exists (mkD3Node alias an).
    - apply processNode_visible in Hv as (? & _ & [=] & _). done. }
  destruct Hstep' as (k3 & Hk3 & Hserved3 & Hself).
  exists ([d3Node] ++ k2 ++ k3).
  split; [by rewrite Hk3, Hk2, <-!app_assoc|].
  intros g [->%list_elem_of_singleton|[Hg|Hg]%elem_of_app]%elem_of_app; [done| |by apply Hserved3].
  eapply alias_served_extends; [by apply Hserved2|done].
Qed.

Lemma forEachRoot_alias_served h fuel roots st st' :
  forEachRoot fuel roots st = Ok st' → well_formed h st →
  ∃ k, d3Nodes st' = d3Nodes st ++ k ∧ ∀ g, g ∈ k → alias_served h st' g.
Proof.
  revert st. induction roots as [|x rest IH]; intros st Hrun Hwf; simpl in Hrun.
  { injection Hrun as <-. exists []. rewrite app_nil_r. split; [done|].
    intros g Hg. by apply elem_of_nil in Hg. }
  apply Outcome_bind_Ok in Hrun as ([r s] & Hv & Hrest).
  destruct (processNode_alias_served h _ _ _ _ _ _ Hv Hwf) as (k1 & Hk1 & Hserved1).
  destruct (IH s Hrest) as (k2 & Hk2 & Hserved2).
  { by eapply processNode_well_formed. }
  exists (k1 ++ k2). split; [by rewrite Hk2, Hk1, app_assoc|].
  intros g [Hg|Hg]%elem_of_app; [|by apply Hserved2].
  eapply alias_served_extends; [by apply Hserved1|].
  by eapply forEachRoot_extends.
Qed.

(** *** Forests without aliases *)

Lemma processNode_None fuel node depth st st' :
  processNode fuel node depth st = Ok (None, st') → maxVisibleDepth < depth.
Proof.
  intros Hrun. destruct fuel as [|fuel]; [done|].
  by apply processNode_inv in Hrun as [(? & _)|(_ & n & st2 & _ & [=] & _)].
Qed.

Lemma nodeRefs_push_node x n st :
  nodeRefs (push_node (mkD3Node x n) st) = nodeRefs st ++ [x].
Proof. unfold nodeRefs. simpl. by rewrite fmap_app. Qed.

Lemma nodeRefs_push_link l st : nodeRefs (push_link l st) = nodeRefs st.
Proof. done. Qed.

Lemma linkRefs_push_link l st :
  linkRefs (push_link l st)
  = linkRefs st ++ [(D3Node.originalNode (D3Link.source l),
                     D3Node.originalNode (D3Link.target l))].
Proof. unfold linkRefs. simpl. by rewrite fmap_app. Qed.

Lemma forEachSubThought_alias_free h k fuel d3Node depth subs st st2 :
  (∀ c s r s',
     processNode fuel c (depth + 1) s = Ok (r, s') → heap s = h →
     Forall (λ l, D3Link.isAlias l = false) (d3Links s) →
     heap s' = h
     ∧ Forall (λ l, D3Link.isAlias l = false) (d3Links s')
     ∧ nodeRefs s' = nodeRefs s ++ preorder h k c
     ∧ linkRefs s' = linkRefs s ++ preorderLinks h k c) →
  k = Z.to_nat (maxVisibleDepth - depth) →
  forEachSubThought (processNode fuel) d3Node depth subs st = Ok st2 →
  heap st = h →
  Forall (λ l, D3Link.isAlias l = false) (d3Links st) →
  heap st2 = h
  ∧ Forall (λ l, D3Link.isAlias l = false) (d3Links st2)
  ∧ nodeRefs st2 = nodeRefs st ++ (subs ≫= preorder h k)
  ∧ linkRefs st2
    = linkRefs st ++
      (subs ≫= λ c, preorderLinks h k c
                     ++ match k with
                        | O => []
                        | S _ => [(D3Node.originalNode d3Node, c)]
                        end).
Proof.
  intros Hvisit Hk. revert st.
  induction subs as [|c rest IH]; intros st Hrun Hh Hstruct.
  { injection Hrun as <-. by rewrite !app_nil_r. }
  rewrite forEachSubThought_cons in Hrun.
  apply Outcome_bind_Ok in Hrun as ([r s'] & Hv & Hrest).
  destruct (Hvisit _ _ _ _ Hv Hh Hstruct) as (Hh' & Hstruct' & Hnodes' & Hlinks').
  rewrite !bind_cons.
  destruct r as [g|].
  - apply processNode_Some in Hv as (Hd & cn & _ & ->).
    destruct (IH _ Hrest) as (Hh2 & Hstruct2 & Hnodes2 & Hlinks2); [done| |].
    { simpl. apply Forall_app_2; [done|]. by apply Forall_singleton. }
    split; [done|]. split; [done|].
    split; [by rewrite Hnodes2, nodeRefs_push_link, Hnodes', app_assoc|].
    rewrite Hlinks2, linkRefs_push_link, Hlinks'. simpl.
    destruct k as [|k]; [lia|]. by rewrite <-!app_assoc.
  - apply processNode_None in Hv.
    destruct (IH _ Hrest Hh' Hstruct') as (Hh2 & Hstruct2 & Hnodes2 & Hlinks2).
    split; [done|]. split; [done|].
    split; [by rewrite Hnodes2, Hnodes', app_assoc|].
    rewrite Hlinks2, Hlinks'.
    destruct k as [|k]; [|lia]. by rewrite app_nil_r, <-!app_assoc.
Qed.

Lemma processNode_alias_free h fuel x d st r st' :
  alias_free h →
  processNode fuel x d st = Ok (r, st') → heap st = h →
  Forall (λ l, D3Link.isAlias l = false) (d3Links st) →
  heap st' = h
  ∧ Forall (λ l, D3Link.isAlias l = false) (d3Links st')
  ∧ nodeRefs st' = nodeRefs st ++ preorder h (Z.to_nat (maxVisibleDepth + 1 - d)) x
  ∧ linkRefs st'
    = linkRefs st ++ preorderLinks h (Z.to_nat (maxVisibleDepth + 1 - d)) x.
Proof.
  intros Hfree. revert x d st r st'.
  induction fuel as [|fuel IH]; intros x d st r st' Hrun Hh Hstruct; [done|].
  apply processNode_inv in Hrun
    as [(Hd & _ & ->)|(Hd & n & st2 & Hn & -> & Hsubs & Hstep)].
  { replace (Z.to_nat (maxVisibleDepth + 1 - d)) with 0%nat by lia.
    by rewrite !app_nil_r. }
  rewrite Hh in Hn.
  replace (Z.to_nat (maxVisibleDepth + 1 - d))
    with (S (Z.to_nat (maxVisibleDepth - d))) by lia.
  assert (Hvisit : ∀ c s r s',
             processNode fuel c (d + 1) s = Ok (r, s') → heap s = h →
             Forall (λ l, D3Link.isAlias l = false) (d3Links s) →
             heap s' = h
             ∧ Forall (λ l, D3Link.isAlias l = false) (d3Links s')
             ∧ nodeRefs s' = nodeRefs s ++ preorder h (Z.to_nat (maxVisibleDepth - d)) c
             ∧ linkRefs s'
               = linkRefs s ++ preorderLinks h (Z.to_nat (maxVisibleDepth - d)) c).
  { intros c s r s' Hv Hhs Hs.
    replace (Z.to_nat (maxVisibleDepth - d))
      with (Z.to_nat (maxVisibleDepth + 1 - (d + 1))) by lia.
    by eapply IH. }
  destruct (forEachSubThought_alias_free h (Z.to_nat (maxVisibleDepth - d))
              _ _ _ _ _ _ Hvisit eq_refl Hsubs)
    as (Hh2 & Hstruct2 & Hnodes2 & Hlinks2); try done.
  assert (st' = st2) as ->.
  { pose proof (Forall_lookup_1 _ _ _ _ Hfree Hn) as Hnone. simpl in Hnone.
    destruct Hstep; congruence. }
  split; [done|]. split; [done|].
  rewrite nodeRefs_push_node in Hnodes2. simpl in Hlinks2.
  simpl. rewrite Hn. simpl.
  split; [by rewrite Hnodes2, <-app_assoc|done].
Qed.

Lemma forEachRoot_alias_free h fuel roots st st' :
  alias_free h →
  forEachRoot fuel roots st = Ok st' → heap st = h →
  Forall (λ l, D3Link.isAlias l = false) (d3Links st) →
  Forall (λ l, D3Link.isAlias l = false) (d3Links st')
  ∧ nodeRefs st'
    = nodeRefs st ++ (roots ≫= preorder h (Z.to_nat (maxVisibleDepth + 1)))
  ∧ linkRefs st'
    = linkRefs st ++ (roots ≫= preorderLinks h (Z.to_nat (maxVisibleDepth + 1))).
Proof.
  intros Hfree. revert st.
  induction roots as [|x rest IH]; intros st Hrun Hh Hstruct; simpl in Hrun.
  { injection Hrun as <-. by rewrite !app_nil_r. }
  apply Outcome_bind_Ok in Hrun as ([r s] & Hv & Hrest).
  destruct (processNode_alias_free h _ _ _ _ _ _ Hfree Hv Hh Hstruct)
    as (Hh' & Hstruct' & Hnodes' & Hlinks').
  replace (maxVisibleDepth + 1 - 0) with (maxVisibleDepth + 1) in * by lia.
  destruct (IH s Hrest Hh' Hstruct') as (Hstruct2 & Hnodes2 & Hlinks2).
  split; [done|]. rewrite !bind_cons.
  split; [by rewrite Hnodes2, Hnodes', app_assoc|].
  by rewrite Hlinks2, Hlinks', app_assoc.
Qed.

Lemma preorder_S h k x :
  preorder h (S k) x
  = x :: (default [] (ThoughtNode.subThoughts <$> h !! x) ≫= preorder h k).
Proof. done. Qed.

Lemma preorderLinks_S h k x :
  preorderLinks h (S k) x
  = default [] (ThoughtNode.subThoughts <$> h !! x) ≫=
      λ c, preorderLinks h k c ++ match k with O => [] | S _ => [(x, c)] end.
Proof. done. Qed.

(** A walk of at least one level has one node more than it has links. *)
Lemma preorder_length h k x :
  length (preorder h (S k) x) = S (length (preorderLinks h (S k) x)).
Proof.
  revert x. induction k as [|k IH]; intros x.
  - rewrite preorder_S, preorderLinks_S. simpl. f_equal.
    induction (default [] (ThoughtNode.subThoughts <$> h !! x)) as [|c l IHl];
      [done|]. by rewrite !bind_cons.
  - rewrite preorder_S, preorderLinks_S.
    remember (preorder h (S k)) as walk eqn:Hwalk.
    remember (preorderLinks h (S k)) as links eqn:Hlinks.
    simpl. f_equal.
    induction (default [] (ThoughtNode.subThoughts <$> h !! x)) as [|c l IHl];
      [done|].
    rewrite !bind_cons, !length_app, IHl, IH. simpl. lia.
Qed.

Lemma preorder_roots_length h k roots :
  length (roots ≫= preorder h (S k))
  = (length roots + length (roots ≫= preorderLinks h (S k)))%nat.
Proof.
  induction roots as [|x rest IH]; [done|].
  rewrite !bind_cons, !length_app, IH, preorder_length. simpl. lia.
Qed.

(** *** Roots in order *)

Lemma processNode_pushes_first fuel x d st r st' :
  processNode fuel x d st = Ok (r, st') → d ≤ maxVisibleDepth →
  ∃ k, nodeRefs st' = nodeRefs st ++ x :: k.
Proof.
  intros Hrun Hd. destruct fuel as [|fuel]; [done|].
  apply processNode_inv in Hrun
    as [(? & _)|(_ & n & st2 & Hn & -> & Hsubs & Hstep)]; [lia|].
  apply forEachSubThought_extends in Hsubs as (_ & [k2 Hk2] & _).
  apply AliasStep_extends in Hstep as (_ & [k3 Hk3] & _).
  exists (D3Node.originalNode <$> (k2 ++ k3)).
  unfold nodeRefs. rewrite Hk3, Hk2. simpl.
  rewrite !fmap_app. simpl. by rewrite <-!app_assoc.
Qed.

Lemma forEachRoot_roots_in_order fuel roots st st' :
  forEachRoot fuel roots st = Ok st' → 0 ≤ maxVisibleDepth →
  ∃ k, nodeRefs st' = nodeRefs st ++ k
       ∧ roots `sublist_of` k ∧ head k = head roots.
Proof.
  intros Hrun Hd. revert st Hrun.
  induction roots as [|x rest IH]; intros st Hrun; simpl in Hrun.
  { injection Hrun as <-. exists []. by rewrite app_nil_r. }
  apply Outcome_bind_Ok in Hrun as ([r s] & Hv & Hrest).
  apply processNode_pushes_first in Hv as [k1 Hk1]; [|done].
  destruct (IH _ Hrest) as (k2 & Hk2 & Hsub & _).
  exists (x :: k1 ++ k2). split; [by rewrite Hk2, Hk1, <-app_assoc|].
  split; [|done]. apply sublist_skip. by apply sublist_inserts_l.
Qed.

Lemma descends_end_bound h x d y e :
  descends maxVisibleDepth h x d y e → e ≤ maxVisibleDepth.
Proof. induction 1; done. Qed.

Lemma flattenWith_well_formed fuel h roots st :
  flattenWith fuel h roots = Ok st → well_formed h st.
Proof.
  intros Hrun. eapply (forEachRoot_invariant (well_formed h)); [|exact Hrun|].
  - intros. by eapply processNode_well_formed.
  - apply well_formed_empty.
Qed.

Lemma flattenWith_visible fuel h roots st r x e :
  flattenWith fuel h roots = Ok st →
  r ∈ roots → descends maxVisibleDepth h r 0 x e →
  ∃ n, h !! x = Some n
    ∧ mkD3Node x n ∈ d3Nodes st
    ∧ (e + 1 ≤ maxVisibleDepth →
       ∀ c, c ∈ ThoughtNode.subThoughts n →
         ∃ cn, h !! c = Some cn
           ∧ mkD3Node c cn ∈ d3Nodes st
           ∧ childLink (mkD3Node x n) (mkD3Node c cn) ∈ d3Links st).
Proof.
  intros Hrun Hr Hdesc.
  destruct (forEachRoot_visit _ _ _ _ r Hrun Hr) as (s & g & s' & Hv & Hext & Hext').
  pose proof (extends_heap _ _ Hext) as Hhs. simpl in Hhs.
  destruct (processNode_descends h _ _ _ _ _ _ _ _ Hdesc Hv Hhs)
    as (fuel' & s0 & g0 & s0' & Hv0 & Hext0 & Hext0').
  pose proof (extends_heap _ _ Hext0) as Hhs0. rewrite Hhs in Hhs0.
  pose proof (descends_end_bound _ _ _ _ _ Hdesc) as He.
  pose proof Hv0 as Hv0'.
  apply processNode_visible in Hv0' as (n & Hn & _ & Hin); [|done].
  exists n. rewrite Hhs0 in Hn. split; [done|]. split.
  - eapply extends_node; [|exact Hin]. by etrans.
  - intros He' c Hc.
    destruct (processNode_child_links _ _ _ _ _ _ n c Hv0 He') as (cn & Hcn & Hcin & Hlink);
      [by rewrite Hhs0|done|].
    exists cn. rewrite Hhs0 in Hcn. split; [done|]. split.
    + eapply extends_node; [|exact Hcin]. by etrans.
    + eapply extends_link; [|exact Hlink]. by etrans.
Qed.

End MoreFlatteningFacts.

(** ** Alias completeness *)

(** An object that is no root, no child of any node and the alias target of
    no node but itself is never visited. *)
Lemma processNode_avoids maxVisibleDepth (h : Heap) (B : ref) :
  (∀ x xn, h !! x = Some xn → B ∉ ThoughtNode.subThoughts xn) →
  (∀ x xn, h !! x = Some xn → ThoughtNode.aliasNode xn = Some B → x = B) →
  ∀ fuel node depth st r st',
    processNode maxVisibleDepth fuel node depth st = Ok (r, st') →
    node ≠ B → heap st = h →
    (∀ g, g ∈ d3Nodes st → D3Node.originalNode g ≠ B) →
    ∀ g, g ∈ d3Nodes st' → D3Node.originalNode g ≠ B.
Proof.
  intros Hnochild Hself.
  induction fuel as [|fuel IH]; intros node depth st r st' Hrun HnB Hh Hst; [done|].
  apply processNode_inv in Hrun
    as [(_ & _ & ->)|(Hd & n & st2 & Hn & -> & Hsubs & Hstep)]; [done|].
  rewrite Hh in Hn.
  set (I := λ s : Store,
         heap s = h ∧ ∀ g, g ∈ d3Nodes s → D3Node.originalNode g ≠ B).
  assert (HI2 : I st2).
  { eapply (forEachSubThought_invariant I); [| |exact Hsubs].
    - intros c s r s' Hc [Hhs Hs] Hv.
      assert (HcB : c ≠ B) by (intros ->; by eapply Hnochild).
      assert (HI' : I s').
      { split; [|by eapply IH].
        rewrite <-Hhs. by eapply extends_heap, processNode_extends. }
      destruct r; exact HI'.
    - split; [done|]. simpl.
      intros g [Hg| ->%list_elem_of_singleton]%elem_of_app; [by apply Hst|done]. }
  destruct HI2 as [Hh2 Hst2].
  eapply AliasStep_case; [exact Hstep|..].
  - by intros ->.
  - by intros alias an g' _ _ _ _ ->.
  - intros alias an r st3 Ha _ _ _ Hv Hst'.
    assert (HaB : alias ≠ B) by (intros ->; apply HnB; by eapply Hself).
    pose proof (IH _ _ _ _ _ Hv HaB Hh2 Hst2) as Hst3.
    destruct r; subst st'; exact Hst3.
Qed.

Lemma forEachRoot_avoids maxVisibleDepth (h : Heap) (B : ref) fuel roots st st' :
  (∀ x xn, h !! x = Some xn → B ∉ ThoughtNode.subThoughts xn) →
  (∀ x xn, h !! x = Some xn → ThoughtNode.aliasNode xn = Some B → x = B) →
  forEachRoot maxVisibleDepth fuel roots st = Ok st' →
  B ∉ roots → heap st = h →
  (∀ g, g ∈ d3Nodes st → D3Node.originalNode g ≠ B) →
  ∀ g, g ∈ d3Nodes st' → D3Node.originalNode g ≠ B.
Proof.
  intros Hnochild Hself. revert st.
  induction roots as [|r rest IH]; intros st Hrun HB Hh Hst; simpl in Hrun.
  { by injection Hrun as <-. }
  apply Outcome_bind_Ok in Hrun as ([g s] & Hr & Hrest).
  apply (IH s Hrest).
  - intros Hin. apply HB. by apply list_elem_of_further.
  - rewrite <-Hh. by eapply extends_heap, processNode_extends.
  - eapply (processNode_avoids maxVisibleDepth h B); try done.
    intros ->. apply HB, list_elem_of_here.
Qed.

(** C5, as the code has it: in a store with distinct ids, let the
    [aliasNode] of [A] be [B], where [B] is no root, no child of any node,
    and the alias target of no node but [A].  Then the pass completes, and
    if [A] has a GraphNode in the output, as it has whenever structural
    descent from a root reaches it within the depth bound, and also when it
    is visited as the alias target of another node, then exactly one
    GraphNode carries the id of [B], it is the GraphNode of [B], and the link
    list holds an alias link from the GraphNode of [A] to it. *)
Theorem C5_alias_completeness maxVisibleDepth (h : Heap) (rootThoughts : list ref)
    (A B : ref) (an bn : ThoughtNode.t) :
  heap_closed h = true →
  roots_ok h rootThoughts = true →
  NoDup (ThoughtNode.id <$> h) →
  h !! A = Some an →
  h !! B = Some bn →
  ThoughtNode.aliasNode an = Some B →
  B ∉ rootThoughts →
  (∀ x xn, h !! x = Some xn → B ∉ ThoughtNode.subThoughts xn) →
  (∀ x xn, h !! x = Some xn → ThoughtNode.aliasNode xn = Some B → x = A) →
  ∃ st,
    flatten maxVisibleDepth h rootThoughts = Ok st
    ∧ (visible maxVisibleDepth h rootThoughts A → mkD3Node A an ∈ d3Nodes st)
    ∧ (mkD3Node A an ∈ d3Nodes st →
       count_id (ThoughtNode.id bn) st = 1%nat
       ∧ mkD3Node B bn ∈ d3Nodes st
       ∧ aliasLink (mkD3Node A an) (mkD3Node B bn) ∈ d3Links st).
Proof.
  intros Hclosed Hroots Hunique HA HB Halias HBroot Hnochild Honly.
  destruct (flatten_terminates maxVisibleDepth h rootThoughts Hclosed Hroots)
    as (st & Hrun & _).
  exists st. split; [done|]. split.
  { intros (r & e & Hr & Hdesc).
    destruct (flattenWith_visible _ _ _ _ _ _ _ _ Hrun Hr Hdesc) as (n & Hn & Hin & _).
    by assert (n = an) as <- by congruence. }
  intros HAin.
  assert (HAB : A ≠ B).
  { intros <-.
    eapply (forEachRoot_avoids maxVisibleDepth h A); [done|done|exact Hrun|..];
      try done.
    intros g Hg. by apply elem_of_nil in Hg. }
  destruct (roots_spec maxVisibleDepth h A B an bn Hunique HA HB HAB Halias
              Hnochild Honly _ _ _ _ Hrun HBroot)
    as [(Hwf & Hcnt & Hlink) _].
  { split; [apply well_formed_empty|]. split; [unfold count_id; simpl; lia|].
    intros (l & Hl & _). by apply elem_of_nil in Hl. }
  destruct (forEachRoot_alias_served maxVisibleDepth h _ _ _ _ Hrun
              (well_formed_empty h)) as (k & Hk & Hserved).
  simpl in Hk. rewrite Hk in HAin.
  destruct (Hserved _ HAin an B bn HA Halias HB) as (Hjoined & g' & Hg' & Hid').
  assert (g' = mkD3Node B bn) as -> by (by eapply well_formed_node_id).
  split; [|split; [done|by apply Hlink]].
  pose proof (count_id_elem (ThoughtNode.id bn) _ st Hg' eq_refl). lia.
Qed.

Lemma C5_alias_completeness_witness :
  ∃ st,
    flatten 5 aliasChainForest [2%nat] = Ok st
    ∧ mkD3Node 1%nat (thought "s1" [] (Some 0%nat)) ∈ d3Nodes st
    ∧ count_id "n" st = 1%nat
    ∧ mkD3Node 0%nat (thought "n" [] None) ∈ d3Nodes st
    ∧ aliasLink (mkD3Node 1%nat (thought "s1" [] (Some 0%nat)))
        (mkD3Node 0%nat (thought "n" [] None)) ∈ d3Links st.
Proof.
  destruct (C5_alias_completeness 5 aliasChainForest [2%nat] 1%nat 0%nat
              (thought "s1" [] (Some 0%nat)) (thought "n" [] None))
    as (st & Hrun & _ & Hdrawn); try reflexivity.
  - apply (bool_decide_unpack _). by vm_compute.
  - intros Hin. apply list_elem_of_singleton in Hin. discriminate.
  - intros [|[|[|x]]] xn; simpl; intros [= <-]; simpl; intros Hin;
      by apply elem_of_nil in Hin.
  - intros [|[|[|x]]] xn; simpl; intros [= <-]; simpl; intros [=]; reflexivity.
  - assert (HA : mkD3Node 1%nat (thought "s1" [] (Some 0%nat)) ∈ d3Nodes st).
    { vm_compute in Hrun. injection Hrun as <-.
      apply list_elem_of_further, list_elem_of_here. }
    exists st. split; [exact Hrun|]. split; [exact HA|]. exact (Hdrawn HA).
Defined.

(** What the statement above has to leave out.  With the bound at 0 in
    [strayAliasForest], "a" is a child of the root, so it is beyond the
    bound and has no GraphNode, its alias is never looked at, and "b" has no
    GraphNode.  When the alias target aliases back (root "a" aliases "b", "b"
    aliases "a", nothing else mentions "b"), two alias links join the pair.
    And when the alias target carries the id of a GraphNode that is already
    there (here that of the root itself), [d3Nodes.find] returns that
    GraphNode and the target is never visited. *)
Lemma C5_counterexample :
  (strayAliasForest !! 1%nat = Some (thought "a" [] (Some 2%nat))
   ∧ visible 1 strayAliasForest [0%nat] 1%nat
   ∧ ∃ st, flatten 0 strayAliasForest [0%nat] = Ok st
       ∧ nodeIds st = ["r"]
       ∧ count_id "b" st ≠ 1%nat)
  ∧ (mutualAliasForest !! 0%nat = Some (thought "a" [] (Some 1%nat))
     ∧ ∃ st, flatten 5 mutualAliasForest [0%nat] = Ok st
         ∧ linkEnds st = [("b", "a", true); ("a", "b", true)]
         ∧ length (filter (λ l, D3Link.isAlias l = true ∧ joins "a" "b" l = true)
                     (d3Links st)) ≠ 1%nat)
  ∧ (sameIdForest !! 0%nat = Some (thought "r" [] (Some 1%nat))
     ∧ ∃ st, flatten 5 sameIdForest [0%nat] = Ok st
         ∧ d3Nodes st = [mkD3Node 0%nat (thought "r" [] (Some 1%nat))]
         ∧ mkD3Node 1%nat (thought "r" [] None) ∉ d3Nodes st).
Proof.
  split; [|split].
  - split; [reflexivity|]. split.
    + exists 0%nat, 1. split; [apply list_elem_of_here|].
      eapply (descends_child 1 strayAliasForest 0%nat 0 _ 1%nat);
        [lia|reflexivity|apply list_elem_of_here|].
      apply descends_here. lia.
    + eexists. split; [reflexivity|]. split; [reflexivity|]. by vm_compute.
  - split; [reflexivity|]. eexists. split; [reflexivity|].
    split; [reflexivity|]. by vm_compute.
  - split; [reflexivity|]. eexists. split; [reflexivity|].
    split; [reflexivity|].
    intros Hin. apply list_elem_of_singleton in Hin. discriminate.
Qed.

(** ** The output of the flattening pass *)

(** X5: the output is a graph: the two ends of every GraphLink are elements
    of the node list, and every GraphNode is the copy made by [processNode] of
    the object it names as [originalNode] (its id, type, content, status and
    recursion depth, and [reflexive] set exactly when it has an [aliasNode]). *)
Theorem X5_output_is_graph maxVisibleDepth fuel (h : Heap) (rootThoughts : list ref) st :
  flattenWith maxVisibleDepth fuel h rootThoughts = Ok st →
  (∀ l, l ∈ d3Links st →
     D3Link.source l ∈ d3Nodes st ∧ D3Link.target l ∈ d3Nodes st)
  ∧ (∀ g, g ∈ d3Nodes st →
       ∃ n, h !! D3Node.originalNode g = Some n
            ∧ g = mkD3Node (D3Node.originalNode g) n).
Proof.
  intros (_ & Hnodes & Hlinks)%flattenWith_well_formed. done.
Qed.

Lemma X5_output_is_graph_witness :
  ∃ st,
    flattenWith 5 4 mutualAliasForest [0%nat] = Ok st
    ∧ (∀ l, l ∈ d3Links st →
         D3Link.source l ∈ d3Nodes st ∧ D3Link.target l ∈ d3Nodes st)
    ∧ (∀ g, g ∈ d3Nodes st →
         ∃ n, mutualAliasForest !! D3Node.originalNode g = Some n
              ∧ g = mkD3Node (D3Node.originalNode g) n).
Proof.
  eexists. split; [reflexivity|].
  apply (X5_output_is_graph 5 4 mutualAliasForest [0%nat]). reflexivity.
Defined.

(** X6: every link says what the forest says: a structural link goes from a
    node to one of its [subThoughts], and an alias link leaves a node that
    has an [aliasNode] and ends at a GraphNode carrying the id of that alias
    target. *)
Theorem X6_links_sound maxVisibleDepth fuel (h : Heap) (rootThoughts : list ref) st :
  flattenWith maxVisibleDepth fuel h rootThoughts = Ok st →
  ∀ l, l ∈ d3Links st → link_sound h l.
Proof.
  intros Hrun.
  eapply (forEachRoot_invariant maxVisibleDepth
            (λ s, heap s = h ∧ ∀ l, l ∈ d3Links s → link_sound h l));
    [|exact Hrun|].
  - intros. by eapply processNode_links_sound.
  - split; [done|]. intros l Hl. by apply elem_of_nil in Hl.
Qed.

Lemma X6_links_sound_witness :
  ∃ st,
    flattenWith 5 4 siblingAliasForest [0%nat] = Ok st
    ∧ ∀ l, l ∈ d3Links st → link_sound siblingAliasForest l.
Proof.
  eexists. split; [reflexivity|].
  apply (X6_links_sound 5 4 siblingAliasForest [0%nat]). reflexivity.
Defined.

(** X7: with a negative [maxVisibleDepth] the pass outputs no node and no
    link, whatever the roots are; no root is read. *)
Theorem X7_negative_bound maxVisibleDepth (h : Heap) (rootThoughts : list ref) :
  maxVisibleDepth < 0 →
  flatten maxVisibleDepth h rootThoughts
  = Ok {| heap := h; d3Nodes := []; d3Links := [] |}.
Proof. intros Hd. by apply forEachRoot_beyond. Qed.

Lemma X7_negative_bound_witness :
  flatten (-1) siblingAliasForest [0%nat; 7%nat]
  = Ok {| heap := siblingAliasForest; d3Nodes := []; d3Links := [] |}.
Proof. apply (X7_negative_bound (-1) siblingAliasForest [0%nat; 7%nat]). lia. Defined.

(** X8: every node that structural descent from a root reaches within the
    depth bound has its GraphNode in the output, and unless it sits on the
    last level each of its [subThoughts] has a GraphNode and a structural
    link from it. *)
Theorem X8_structural_completeness maxVisibleDepth fuel (h : Heap)
    (rootThoughts : list ref) st r x e :
  flattenWith maxVisibleDepth fuel h rootThoughts = Ok st →
  r ∈ rootThoughts →
  descends maxVisibleDepth h r 0 x e →
  ∃ n, h !! x = Some n
    ∧ mkD3Node x n ∈ d3Nodes st
    ∧ (e + 1 ≤ maxVisibleDepth →
       ∀ c, c ∈ ThoughtNode.subThoughts n →
         ∃ cn, h !! c = Some cn
           ∧ mkD3Node c cn ∈ d3Nodes st
           ∧ childLink (mkD3Node x n) (mkD3Node c cn) ∈ d3Links st).
Proof. apply flattenWith_visible. Qed.

Lemma X8_structural_completeness_witness :
  ∃ st n,
    flattenWith 5 4 siblingAliasForest [0%nat] = Ok st
    ∧ siblingAliasForest !! 0%nat = Some n
    ∧ mkD3Node 0%nat n ∈ d3Nodes st
    ∧ (0 + 1 ≤ 5 →
       ∀ c, c ∈ ThoughtNode.subThoughts n →
         ∃ cn, siblingAliasForest !! c = Some cn
           ∧ mkD3Node c cn ∈ d3Nodes st
           ∧ childLink (mkD3Node 0%nat n) (mkD3Node c cn) ∈ d3Links st).
Proof.
  eexists.
  destruct (X8_structural_completeness 5 4 siblingAliasForest [0%nat] _ 0%nat 0%nat 0
              eq_refl) as (n & Hn & Hrest).
  - apply list_elem_of_here.
  - apply descends_here. lia.
  - exists n. split; [reflexivity|]. split; assumption.
Defined.

(** X9: every node in the output that has an [aliasNode] is served: some
    link joins its id and the id of its alias target, and some GraphNode
    carries the id of the alias target. *)
Theorem X9_aliases_served maxVisibleDepth fuel (h : Heap) (rootThoughts : list ref) st :
  flattenWith maxVisibleDepth fuel h rootThoughts = Ok st →
  ∀ g, g ∈ d3Nodes st → alias_served h st g.
Proof.
  intros Hrun g Hg.
  destruct (forEachRoot_alias_served maxVisibleDepth h _ _ _ _ Hrun)
    as (k & Hk & Hserved); [apply well_formed_empty|].
  simpl in Hk. rewrite Hk in Hg. by apply Hserved.
Qed.

Lemma X9_aliases_served_witness :
  ∃ st,
    flattenWith 5 4 mutualAliasForest [0%nat] = Ok st
    ∧ ∀ g, g ∈ d3Nodes st → alias_served mutualAliasForest st g.
Proof.
  eexists. split; [reflexivity|].
  apply (X9_aliases_served 5 4 mutualAliasForest [0%nat]). reflexivity.
Defined.

(** X10: on a forest without aliases the node list is the pre-order walk of
    the roots in order, [maxVisibleDepth + 1] levels deep, the link list is
    the list of the walk's parent-child pairs, each child's link after the
    links below it, every link is structural, and there are as many nodes as
    roots and links together. *)
Theorem X10_alias_free_preorder maxVisibleDepth fuel (h : Heap)
    (rootThoughts : list ref) st :
  alias_free h →
  flattenWith maxVisibleDepth fuel h rootThoughts = Ok st →
  nodeRefs st = rootThoughts ≫= preorder h (Z.to_nat (maxVisibleDepth + 1))
  ∧ linkRefs st = rootThoughts ≫= preorderLinks h (Z.to_nat (maxVisibleDepth + 1))
  ∧ (∀ l, l ∈ d3Links st → D3Link.isAlias l = false)
  ∧ (0 ≤ maxVisibleDepth →
     length (d3Nodes st) = (length rootThoughts + length (d3Links st))%nat).
Proof.
  intros Hfree Hrun.
  destruct (forEachRoot_alias_free maxVisibleDepth h _ _ _ _ Hfree Hrun)
    as (Hstruct & Hnodes & Hlinks); [done|by apply Forall_nil|].
  simpl in Hnodes, Hlinks.
  split; [done|]. split; [done|]. split.
  - intros l Hl. by eapply Forall_forall in Hstruct.
  - intros Hd.
    assert (Hn : length (d3Nodes st) = length (nodeRefs st))
      by (unfold nodeRefs; by rewrite length_fmap).
    assert (Hl : length (d3Links st) = length (linkRefs st))
      by (unfold linkRefs; by rewrite length_fmap).
    rewrite Hn, Hl, Hnodes, Hlinks.
    replace (Z.to_nat (maxVisibleDepth + 1))
      with (S (Z.to_nat maxVisibleDepth)) by lia.
    apply preorder_roots_length.
Qed.

Lemma X10_alias_free_preorder_witness :
  ∃ st,
    flattenWith 1 4 plainForest [0%nat] = Ok st
    ∧ nodeRefs st = [0%nat] ≫= preorder plainForest (Z.to_nat (1 + 1))
    ∧ linkRefs st = [0%nat] ≫= preorderLinks plainForest (Z.to_nat (1 + 1))
    ∧ (∀ l, l ∈ d3Links st → D3Link.isAlias l = false)
    ∧ (0 ≤ 1 → length (d3Nodes st) = (length [0%nat] + length (d3Links st))%nat).
Proof.
  eexists. split; [reflexivity|].
  apply (X10_alias_free_preorder 1 4 plainForest [0%nat]); [|reflexivity].
  repeat constructor.
Defined.

(** X11: on a forest without aliases and with distinct ids, if the
    pre-order walk from the roots meets no object twice (the roots own
    disjoint trees), no two GraphNodes of the output carry the same id. *)
Theorem X11_no_duplicates_in_trees maxVisibleDepth fuel (h : Heap)
    (rootThoughts : list ref) st :
  alias_free h →
  NoDup (ThoughtNode.id <$> h) →
  NoDup (rootThoughts ≫= preorder h (Z.to_nat (maxVisibleDepth + 1))) →
  flattenWith maxVisibleDepth fuel h rootThoughts = Ok st →
  NoDup (nodeIds st).
Proof.
  intros Hfree Hunique Hwalk Hrun.
  destruct (forEachRoot_alias_free maxVisibleDepth h _ _ _ _ Hfree Hrun)
    as (_ & Hnodes & _); [done|by apply Forall_nil|].
  simpl in Hnodes. rewrite <-Hnodes in Hwalk.
  apply flattenWith_well_formed in Hrun as (_ & Hwf & _).
  apply NoDup_alt. intros i j a Hi Hj.
  unfold nodeIds in Hi, Hj. rewrite list_lookup_fmap in Hi, Hj.
  destruct (d3Nodes st !! i) as [g|] eqn:Hgi; [|done].
  destruct (d3Nodes st !! j) as [g'|] eqn:Hgj; [|done].
  simpl in Hi, Hj. injection Hi as Hi. injection Hj as Hj.
  destruct (Hwf g) as (n & Hn & Hg); [by eapply list_elem_of_lookup_2|].
  destruct (Hwf g') as (n' & Hn' & Hg'); [by eapply list_elem_of_lookup_2|].
  assert (Hsame : D3Node.originalNode g = D3Node.originalNode g').
  { eapply (ids_inj h Hunique); [exact Hn|exact Hn'|].
    rewrite Hg in Hi. rewrite Hg' in Hj. simpl in Hi, Hj. congruence. }
  eapply (NoDup_lookup _ i j _ Hwalk); unfold nodeRefs; rewrite list_lookup_fmap.
  - by rewrite Hgi.
  - rewrite Hgj. simpl. by rewrite Hsame.
Qed.

Lemma X11_no_duplicates_in_trees_witness :
  ∃ st, flattenWith 5 4 plainForest [0%nat] = Ok st ∧ NoDup (nodeIds st).
Proof.
  eexists. split; [reflexivity|].
  apply (X11_no_duplicates_in_trees 5 4 plainForest [0%nat]).
  - repeat constructor.
  - apply (bool_decide_unpack _). by vm_compute.
  - apply (bool_decide_unpack _). by vm_compute.
  - reflexivity.
Defined.

(** X12: when the bound is not negative the roots appear in the node list in
    the order of [rootThoughts], and the first GraphNode is that of the first
    root. *)
Theorem X12_roots_in_order maxVisibleDepth fuel (h : Heap) (rootThoughts : list ref) st :
  flattenWith maxVisibleDepth fuel h rootThoughts = Ok st →
  0 ≤ maxVisibleDepth →
  rootThoughts `sublist_of` nodeRefs st
  ∧ head (nodeRefs st) = head rootThoughts.
Proof.
  intros Hrun Hd.
  destruct (forEachRoot_roots_in_order maxVisibleDepth _ _ _ _ Hrun Hd)
    as (k & Hk & Hsub & Hhead).
  simpl in Hk. by rewrite Hk.
Qed.

Lemma X12_roots_in_order_witness :
  ∃ st,
    flattenWith 5 4 mutualAliasForest [1%nat; 0%nat] = Ok st
    ∧ [1%nat; 0%nat] `sublist_of` nodeRefs st
    ∧ head (nodeRefs st) = head [1%nat; 0%nat].
Proof.
  eexists. split; [reflexivity|].
  apply (X12_roots_in_order 5 4 mutualAliasForest [1%nat; 0%nat]); [reflexivity|lia].
Defined.

(** ** The mutators of the model *)

Lemma heap_closed_spec (h : Heap) :
  heap_closed h = true ↔ ∀ x n, h !! x = Some n → refs_ok h n = true.
Proof.
  unfold heap_closed. rewrite forallb_forall. split.
  - intros Hall x n Hx. apply Hall, list_elem_of_In. by eapply list_elem_of_lookup_2.
  - intros Hall n [x Hx]%list_elem_of_In%list_elem_of_lookup. by eapply Hall.
Qed.

Lemma refs_ok_mono (h h' : Heap) n :
  (length h ≤ length h')%nat → refs_ok h n = true → refs_ok h' n = true.
Proof.
  intros Hlen. unfold refs_ok. rewrite !andb_true_iff, !forallb_forall.
  intros [Hsubs Halias]. split.
  - intros c Hc. apply Hsubs, bool_decide_eq_true in Hc.
    apply bool_decide_eq_true. lia.
  - destruct (ThoughtNode.aliasNode n); [|done].
    apply bool_decide_eq_true in Halias. apply bool_decide_eq_true. lia.
Qed.

Lemma heap_closed_insert (h : Heap) this n1 :
  heap_closed h = true → refs_ok h n1 = true →
  heap_closed (<[this := n1]> h) = true.
Proof.
  rewrite !heap_closed_spec. intros Hclosed Hn1 x n Hx.
  apply (refs_ok_mono h); [by rewrite length_insert|].
  apply list_lookup_insert_Some in Hx as [(_ & <- & _)|[_ Hx]]; [done|].
  by eapply Hclosed.
Qed.

Lemma ids_insert (h : Heap) this n n1 :
  h !! this = Some n → ThoughtNode.id n1 = ThoughtNode.id n →
  ThoughtNode.id <$> <[this := n1]> h = ThoughtNode.id <$> h.
Proof.
  intros Hn Hid. rewrite list_fmap_insert. apply list_insert_id.
  by rewrite list_lookup_fmap, Hn, Hid.
Qed.

(** X13: [memoize] leaves the node memoized under the given key; a later
    [updateEvaluationStatus] replaces the status and keeps the key, so a node
    can carry a memoization key without being memoized.  Nothing else of the
    node changes. *)
Theorem X13_memoize_then_update (h : Heap) this n key status :
  h !! this = Some n →
  ∃ h1 h2 n1,
    memoize h this key = Some h1
    ∧ h1 !! this = Some n1
    ∧ evaluationStatus (ThoughtNode.metadata n1) = MEMOIZED
    ∧ memoizationKey (ThoughtNode.metadata n1) = Some key
    ∧ updateEvaluationStatus h1 this status = Some h2
    ∧ h2 !! this
      = Some (withMetadata n
                {| createdAt := createdAt (ThoughtNode.metadata n);
                   evaluationStatus := status;
                   recursionDepth := recursionDepth (ThoughtNode.metadata n);
                   memoizationKey := Some key |}).
Proof.
  intros Hn. pose proof (lookup_lt_Some _ _ _ Hn) as Hlt.
  unfold memoize. rewrite Hn. simpl.
  eexists _, _, _. split; [reflexivity|].
  split; [by apply list_lookup_insert_eq|].
  split; [done|]. split; [done|].
  unfold updateEvaluationStatus.
  rewrite list_lookup_insert_eq by done. simpl.
  split; [reflexivity|].
  rewrite list_lookup_insert_eq; [done|]. by rewrite length_insert.
Qed.

Lemma X13_memoize_then_update_witness :
  ∃ h1 h2 n1,
    memoize plainForest 1%nat "k" = Some h1
    ∧ h1 !! 1%nat = Some n1
    ∧ evaluationStatus (ThoughtNode.metadata n1) = MEMOIZED
    ∧ memoizationKey (ThoughtNode.metadata n1) = Some "k"
    ∧ updateEvaluationStatus h1 1%nat ERROR = Some h2
    ∧ h2 !! 1%nat
      = Some (withMetadata (thought "a" [3%nat] None)
                {| createdAt := 0; evaluationStatus := ERROR;
                   recursionDepth := 0; memoizationKey := Some "k" |}).
Proof.
  apply (X13_memoize_then_update plainForest 1%nat (thought "a" [3%nat] None) "k" ERROR).
  reflexivity.
Defined.

(** X14: a representation stored with [createIsomorphicRepresentation] is
    read back under its domain, the two other domains and the rest of the
    node keep what they had, a second write to the same domain replaces the
    first, and writes to different domains give the same store in either
    order. *)
Theorem X14_isomorphic_representations (h : Heap) this n d1 d2 r1 r2 :
  h !! this = Some n →
  (∃ h1 n1,
     createIsomorphicRepresentation h this d1 r1 = Some h1
     ∧ h1 !! this = Some n1
     ∧ getRepresentation (ThoughtNode.isomorphicRepresentations n1) d1 = Some r1
     ∧ (d2 ≠ d1 →
        getRepresentation (ThoughtNode.isomorphicRepresentations n1) d2
        = getRepresentation (ThoughtNode.isomorphicRepresentations n) d2)
     ∧ ThoughtNode.metadata n1 = ThoughtNode.metadata n
     ∧ ThoughtNode.subThoughts n1 = ThoughtNode.subThoughts n
     ∧ ThoughtNode.aliasNode n1 = ThoughtNode.aliasNode n)
  ∧ (createIsomorphicRepresentation h this d1 r1
       ≫= (λ h1, createIsomorphicRepresentation h1 this d1 r2)
     = createIsomorphicRepresentation h this d1 r2)
  ∧ (d1 ≠ d2 →
     createIsomorphicRepresentation h this d1 r1
       ≫= (λ h1, createIsomorphicRepresentation h1 this d2 r2)
     = createIsomorphicRepresentation h this d2 r2
         ≫= (λ h1, createIsomorphicRepresentation h1 this d1 r1)).
Proof.
  intros Hn. pose proof (lookup_lt_Some _ _ _ Hn) as Hlt.
  unfold createIsomorphicRepresentation. rewrite Hn. simpl.
  split; [|split].
  - eexists _, _. split; [reflexivity|].
    split; [by apply list_lookup_insert_eq|]. simpl.
    split; [by destruct d1|]. split; [|done].
    intros Hne. by destruct d1, d2.
  - rewrite list_lookup_insert_eq by done. simpl.
    rewrite list_insert_insert_eq. by destruct d1.
  - intros Hne. rewrite !list_lookup_insert_eq by done. simpl.
    rewrite !list_insert_insert_eq. by destruct d1, d2.
Qed.

Lemma X14_isomorphic_representations_witness :
  createIsomorphicRepresentation plainForest 0%nat Cognitive "x"
    ≫= (λ h1, createIsomorphicRepresentation h1 0%nat Computational "y")
  = createIsomorphicRepresentation plainForest 0%nat Computational "y"
      ≫= (λ h1, createIsomorphicRepresentation h1 0%nat Cognitive "x").
Proof.
  destruct (X14_isomorphic_representations plainForest 0%nat
              (thought "r" [1%nat; 2%nat] None) Cognitive Computational "x" "y"
              eq_refl) as (_ & _ & Hcomm).
  apply Hcomm. discriminate.
Defined.

(** X15: the four mutators allocate nothing and never touch an id: the store
    keeps its size and its list of ids, and a store whose references are all
    objects stays such a store ([addSubThought] being given an object). *)
Theorem X15_mutators_keep_store (h h' : Heap) this :
  (∃ status, updateEvaluationStatus h this status = Some h')
  ∨ (∃ key, memoize h this key = Some h')
  ∨ (∃ d r, createIsomorphicRepresentation h this d r = Some h')
  ∨ (∃ c, addSubThought h this c = Some h' ∧ (c < length h)%nat) →
  length h' = length h
  ∧ ThoughtNode.id <$> h' = ThoughtNode.id <$> h
  ∧ (heap_closed h = true → heap_closed h' = true).
Proof.
  intros [[status Hop]|[[key Hop]|[(d & r & Hop)|(c & Hop & Hc)]]];
    [unfold updateEvaluationStatus in Hop|unfold memoize in Hop
    |unfold createIsomorphicRepresentation in Hop|unfold addSubThought in Hop];
    destruct (h !! this) as [n|] eqn:Hn; try done; simpl in Hop;
    injection Hop as <-;
    (split; [by rewrite length_insert|]);
    (split; [by eapply ids_insert|]);
    intros Hclosed; apply heap_closed_insert; try done;
    pose proof (proj1 (heap_closed_spec h) Hclosed _ _ Hn) as Hok; try done.
  unfold refs_ok in *. simpl.
  apply andb_true_iff in Hok as [Hsubs Halias].
  rewrite forallb_app, Hsubs, Halias. simpl.
  by rewrite bool_decide_eq_true_2.
Qed.

Lemma X15_mutators_keep_store_witness :
  ∃ h',
    addSubThought plainForest 2%nat 3%nat = Some h'
    ∧ length h' = length plainForest
    ∧ ThoughtNode.id <$> h' = ThoughtNode.id <$> plainForest
    ∧ (heap_closed plainForest = true → heap_closed h' = true).
Proof.
  eexists. split; [reflexivity|].
  apply (X15_mutators_keep_store plainForest _ 2%nat).
  right. right. right. exists 3%nat. split; [reflexivity|]. simpl. lia.
Defined.



(** X17: a self-reference holds a copy of the metadata taken when it was
    made: memoizing the original afterwards leaves the self-reference as it
    was, with the status and the key the original had before. *)
Theorem X17_selfReference_snapshot now (h h1 h2 : Heap) this n r key :
  h !! this = Some n →
  createSelfReference now h this = Some (r, h1) →
  memoize h1 this key = Some h2 →
  h2 !! r = h1 !! r
  ∧ ∃ s, h2 !! r = Some s
      ∧ evaluationStatus (ThoughtNode.metadata s)
        = evaluationStatus (ThoughtNode.metadata n)
      ∧ memoizationKey (ThoughtNode.metadata s)
        = memoizationKey (ThoughtNode.metadata n)
      ∧ ThoughtNode.aliasNode s = Some this.
Proof.
  intros Hn Hcall Hmemo.
  destruct (createSelfReference_alloc now h this n Hn)
    as (s & Hcall' & _ & _ & Halias & Hmeta).
  rewrite Hcall' in Hcall. injection Hcall as <- <-.
  pose proof (lookup_lt_Some _ _ _ Hn) as Hlt.
  unfold memoize in Hmemo. rewrite lookup_snoc_old in Hmemo by lia.
  rewrite Hn in Hmemo. simpl in Hmemo. injection Hmemo as <-.
  rewrite list_lookup_insert_ne by lia.
  split; [done|].
  exists s. rewrite lookup_snoc_new, Hmeta. done.
Qed.

Lemma X17_selfReference_snapshot_witness :
  ∃ r h1 h2,
    createSelfReference 0 plainForest 3%nat = Some (r, h1)
    ∧ memoize h1 3%nat "k" = Some h2
    ∧ h2 !! r = h1 !! r
    ∧ ∃ s, h2 !! r = Some s
        ∧ evaluationStatus (ThoughtNode.metadata s) = PENDING
        ∧ memoizationKey (ThoughtNode.metadata s) = None
        ∧ ThoughtNode.aliasNode s = Some 3%nat.
Proof.
  eexists _, _, _. split; [reflexivity|]. split; [reflexivity|].
  apply (X17_selfReference_snapshot 0 plainForest _ _ 3%nat (thought "c" [] None)
           4%nat "k"); reflexivity.
Defined.

(** X18: the GraphNode of a self-reference is flagged reflexive and filled
    with the colour of recursive references; when the [recursionDepth] of
    the node it refers to is an integer of magnitude at most [2^51], where
    the sums and products of the source are exact, its circle and its
    collision circle are 2 wider in radius than those of that node. *)
Theorem X18_selfReference_drawn now (h h' : Heap) this n r :
  h !! this = Some n →
  createSelfReference now h this = Some (r, h') →
  ∃ s, h' !! r = Some s
    ∧ D3Node.reflexive (mkD3Node r s) = true
    ∧ NODE_COLORS (D3Node.type (mkD3Node r s)) = "#673AB7"
    ∧ (- 2 ^ 51 ≤ recursionDepth (ThoughtNode.metadata n) ≤ 2 ^ 51 →
       ∃ radius collision,
         nodeRadius (mkD3Node this n) = Finite radius
         ∧ nodeRadius (mkD3Node r s) = Finite (radius + 2)
         ∧ collisionRadius (mkD3Node this n) = Finite collision
         ∧ collisionRadius (mkD3Node r s) = Finite (collision + 2)).
Proof.
  intros Hn Hcall.
  destruct (createSelfReference_alloc now h this n Hn)
    as (s & Hcall' & _ & Htype & Halias & Hmeta).
  rewrite Hcall' in Hcall. injection Hcall as <- <-.
  exists s. split; [apply lookup_snoc_new|].
  split; [simpl; by rewrite Halias|]. split; [simpl; by rewrite Htype|].
  intros Hbound.
  set (d := recursionDepth (ThoughtNode.metadata n)) in *.
  assert (H51 : 2 ^ 53 = 4 * 2 ^ 51) by done.
  exists (10 + d * 2), (20 + d * 2).
  unfold nodeRadius, collisionRadius, numberMul. simpl. rewrite Hmeta. simpl.
  fold d. rewrite (roundToDouble_exact (d + 1)) by lia.
  rewrite !(toNumber_exact (d * 2)), !(toNumber_exact ((d + 1) * 2)) by lia.
  simpl. rewrite !toNumber_exact by lia.
  repeat split; f_equal; lia.
Qed.

Lemma X18_selfReference_drawn_witness :
  ∃ r h' s radius collision,
    createSelfReference 0 plainForest 3%nat = Some (r, h')
    ∧ h' !! r = Some s
    ∧ D3Node.reflexive (mkD3Node r s) = true
    ∧ NODE_COLORS (D3Node.type (mkD3Node r s)) = "#673AB7"
    ∧ - 2 ^ 51 ≤ 0 ≤ 2 ^ 51
    ∧ nodeRadius (mkD3Node 3%nat (thought "c" [] None)) = Finite radius
    ∧ nodeRadius (mkD3Node r s) = Finite (radius + 2)
    ∧ collisionRadius (mkD3Node 3%nat (thought "c" [] None)) = Finite collision
    ∧ collisionRadius (mkD3Node r s) = Finite (collision + 2).
Proof.
  destruct (X18_selfReference_drawn 0 plainForest _ 3%nat (thought "c" [] None) 4%nat
              eq_refl eq_refl) as (s & Hs & Hreflexive & Hcolour & Hradii).
  assert (Hbound : - 2 ^ 51 ≤ 0 ≤ 2 ^ 51) by lia.
  destruct (Hradii Hbound) as (radius & collision & Hr1 & Hr2 & Hc1 & Hc2).
  eexists 4%nat, _, s, radius, collision.
  split; [reflexivity|]. split; [exact Hs|]. split; [exact Hreflexive|].
  split; [exact Hcolour|]. split; [exact Hbound|].
  split; [exact Hr1|]. split; [exact Hr2|]. split; [exact Hc1|exact Hc2].
Defined.

(** ** The mutators and the flattening pass together *)

Lemma descends_addSubThought maxVisibleDepth (h h1 : Heap) this c x d y e :
  addSubThought h this c = Some h1 →
  descends maxVisibleDepth h x d y e →
  descends maxVisibleDepth h1 x d y e.
Proof.
  intros Hadd. unfold addSubThought in Hadd.
  destruct (h !! this) as [n|] eqn:Hn; [|done]. simpl in Hadd.
  injection Hadd as <-.
  pose proof (lookup_lt_Some _ _ _ Hn) as Hlt.
  induction 1 as [x d Hd|x d nx c' y e Hd Hx Hc' _ IH]; [by constructor|].
  destruct (decide (x = this)) as [->|Hne].
  - eapply descends_child; [done|by apply list_lookup_insert_eq| |exact IH].
    simpl. assert (nx = n) as -> by congruence.
    apply elem_of_app. by left.
  - eapply descends_child; [done| |exact Hc'|exact IH].
    by rewrite list_lookup_insert_ne.
Qed.

(** X19: a child added with [addSubThought] to a node that structural
    descent reaches above the last level is drawn by the next flattening
    pass: it has a GraphNode and a structural link from its new parent. *)
Theorem X19_added_child_is_drawn maxVisibleDepth fuel (h h1 : Heap)
    (rootThoughts : list ref) this c r e st :
  addSubThought h this c = Some h1 →
  r ∈ rootThoughts →
  descends maxVisibleDepth h r 0 this e →
  e + 1 ≤ maxVisibleDepth →
  flattenWith maxVisibleDepth fuel h1 rootThoughts = Ok st →
  ∃ n1 cn,
    h1 !! this = Some n1 ∧ h1 !! c = Some cn
    ∧ mkD3Node c cn ∈ d3Nodes st
    ∧ childLink (mkD3Node this n1) (mkD3Node c cn) ∈ d3Links st.
Proof.
  intros Hadd Hr Hdesc He Hrun.
  pose proof (descends_addSubThought _ _ _ _ _ _ _ _ _ Hadd Hdesc) as Hdesc1.
  destruct (flattenWith_visible _ _ _ _ _ _ _ _ Hrun Hr Hdesc1)
    as (n1 & Hn1 & _ & Hchildren).
  destruct (Hchildren He c) as (cn & Hcn & Hin & Hlink).
  { unfold addSubThought in Hadd.
    destruct (h !! this) as [n|] eqn:Hn; [|done]. simpl in Hadd.
    injection Hadd as <-.
    rewrite list_lookup_insert_eq in Hn1 by (by eapply lookup_lt_Some).
    injection Hn1 as <-. simpl. apply elem_of_app. right. apply list_elem_of_here. }
  by exists n1, cn.
Qed.

Lemma X19_added_child_is_drawn_witness :
  ∃ h1 st,
    addSubThought plainForest 2%nat 3%nat = Some h1
    ∧ flattenWith 5 4 h1 [0%nat] = Ok st
    ∧ ∃ n1 cn,
        h1 !! 2%nat = Some n1 ∧ h1 !! 3%nat = Some cn
        ∧ mkD3Node 3%nat cn ∈ d3Nodes st
        ∧ childLink (mkD3Node 2%nat n1) (mkD3Node 3%nat cn) ∈ d3Links st.
Proof.
  eexists _, _. split; [reflexivity|]. split; [reflexivity|].
  apply (X19_added_child_is_drawn 5 4 plainForest _ [0%nat] 2%nat 3%nat 0%nat 1).
  - reflexivity.
  - apply list_elem_of_here.
  - eapply (descends_child 5 plainForest 0%nat 0 _ 2%nat);
      [lia|reflexivity|apply list_elem_of_further, list_elem_of_here|].
    apply descends_here. lia.
  - lia.
  - reflexivity.
Defined.

(** X20: after [memoize], every GraphNode the flattening pass makes for that
    node has the status memoized, so it gets a status indicator, filled with
    the colour of memoized nodes. *)
Theorem X20_memoized_is_drawn_memoized maxVisibleDepth fuel (h h1 : Heap)
    (rootThoughts : list ref) this key st :
  memoize h this key = Some h1 →
  flattenWith maxVisibleDepth fuel h1 rootThoughts = Ok st →
  ∀ g, g ∈ d3Nodes st → D3Node.originalNode g = this →
    D3Node.status g = MEMOIZED
    ∧ hasStatusIndicator g = true
    ∧ statusIndicatorFill g = "#9C27B0".
Proof.
  intros Hmemo Hrun g Hg Horig.
  apply flattenWith_well_formed in Hrun as (_ & Hnodes & _).
  destruct (Hnodes g Hg) as (n1 & Hn1 & ->). simpl in Horig. subst this.
  unfold memoize in Hmemo.
  destruct (h !! _) as [n|] eqn:Hn; [|done]. simpl in Hmemo.
  injection Hmemo as <-.
  rewrite list_lookup_insert_eq in Hn1 by (by eapply lookup_lt_Some).
  injection Hn1 as <-. done.
Qed.

Lemma X20_memoized_is_drawn_memoized_witness :
  ∃ h1 st,
    memoize plainForest 1%nat "k" = Some h1
    ∧ flattenWith 5 4 h1 [0%nat] = Ok st
    ∧ ∀ g, g ∈ d3Nodes st → D3Node.originalNode g = 1%nat →
        D3Node.status g = MEMOIZED
        ∧ hasStatusIndicator g = true
        ∧ statusIndicatorFill g = "#9C27B0".
Proof.
  eexists _, _. split; [reflexivity|]. split; [reflexivity|].
  eapply (X20_memoized_is_drawn_memoized 5 4 plainForest _ [0%nat] 1%nat "k");
    reflexivity.
Defined.
